(** * Retrying: a shallow embedding of [retrying.go]

    The development follows the Go package [retrying]: a [Retryable] value
    is configured by chained builder calls that accumulate validation
    errors, an operation is bound through [Function] behind a
    panic-recovering wrapper, and [Try] runs the operation either
    sequentially ([tryWithoutTimeout]) or raced against a timer
    ([tryWithTimeout]).

    Conventions.
    - Go's [int] and [time.Duration] are 64-bit signed integers; they are
      carried by [Z], and the only arithmetic of the package (inside
      [wait]) is written with its wrap-around ([wrap64]).
    - A Go [func() error] is effectful.  Its observable behaviour in one
      run is the sequence of its results: an operation is a function from
      the number of earlier invocations to the result of the next one.
    - Side effects of the engine (invocations of the operation, calls of
      [sleep], draws from [math/rand]) are recorded in a [World] that is
      threaded through a small state-and-panic monad. *)

From Stdlib Require Import ZArith List String Ascii Bool Lia DecimalString.
From Stdlib Require Import Permutation.
Import ListNotations.
Open Scope Z_scope.

(** ** Error values *)

(** Error values other than composites.  The two package variables are
    compared by identity in Go, so they are constructors of their own;
    [Errorf text] is a value obtained from [fmt.Errorf] (or any other
    error) whose [Error()] is [text]. *)
Inductive err : Type :=
| ErrTimeout
| ErrNoFunctionSpecified
| Errorf (text : string).

Definition Error (e : err) : string :=
  match e with
  | ErrTimeout => "timeout error"
  | ErrNoFunctionSpecified => "no function is specified"
  | Errorf text => text
  end.

(** A non-nil value of Go's [error] interface as [Try] may return it:
    a plain error, or a [*multierror.Error] holding its components.
    The nil interface is [None] in [option error]. *)
Inductive error : Type :=
| Plain (e : err)
| Multi (Errors : list err).

(** Modelled from the spec: the package [github.com/hashicorp/go-multierror]
    is imported by [retrying.go] and is not part of the sources.  Following
    the spec, a composite report is the ordered list of the failures
    appended to it; appending a nil error adds nothing; [ErrorOrNil] is nil
    for the empty report.  Failures handed to [Append] are plain errors. *)
Definition Append (errors : list err) (errs : list (option err)) : list err :=
  errors ++ flat_map (fun e => match e with Some x => [x] | None => [] end) errs.

Definition ErrorOrNil (errors : list err) : option error :=
  match errors with
  | [] => None
  | _ :: _ => Some (Multi errors)
  end.

(** ** Results, the world and the monad *)

(** A Go call either returns or panics with a payload; the payload is
    carried by its [%v] text. *)
Inductive outcome (A : Type) : Type :=
| Return (a : A)
| Panic (payload : string).
Arguments Return {A} a.
Arguments Panic {A} payload.

(** What the engine does to its environment: how many times the operation
    slot [r.f] has been invoked, the arguments of the calls of [sleep] in
    order, and how many numbers have been drawn from [math/rand]. *)
Record World : Type := mkWorld {
  calls : nat;
  sleeps : list Z;
  draws : nat
}.

Definition M (A : Type) : Type := World -> outcome A * World.

Definition ret {A} (a : A) : M A := fun w => (Return a, w).

Definition bind {A B} (m : M A) (k : A -> M B) : M B :=
  fun w =>
    match m w with
    | (Return a, w') => k a w'
    | (Panic p, w') => (Panic p, w')
    end.

Declare Scope go_scope.
Delimit Scope go_scope with go.
Notation "x <- m ;; k" := (bind m (fun x => k))
  (at level 61, m at next level, right associativity) : go_scope.
Notation "m ;;; k" := (bind m (fun _ => k))
  (at level 61, right associativity) : go_scope.
Open Scope go_scope.

(** [int64] wrap-around. *)
Definition wrap64 (x : Z) : Z := (x + 2 ^ 63) mod 2 ^ 64 - 2 ^ 63.

Definition int64 (x : Z) : Prop := - 2 ^ 63 <= x < 2 ^ 63.

(** [time.Sleep] returns immediately for a zero or negative duration: the
    time really spent in [sleep d]. *)
Definition pause (d : Z) : Z := Z.max 0 d.

(** ** Strings *)

Definition nl : string := String (ascii_of_nat 10) EmptyString.

Definition NUL : ascii := ascii_of_nat 0.

Fixpoint zeros (n : nat) : string :=
  match n with
  | O => EmptyString
  | S n' => String NUL (zeros n')
  end.

(** [buf := make([]byte, n); runtime.Stack(buf, all)]: the first [n] bytes
    of the trace, the rest of the buffer left at zero. *)
Fixpoint fill (n : nat) (trace : string) : string :=
  match n with
  | O => EmptyString
  | S n' =>
      match trace with
      | EmptyString => zeros n
      | String c rest => String c (fill n' rest)
      end
  end.

Definition itoa (n : nat) : string := NilEmpty.string_of_uint (Nat.to_uint n).

(** ** The [reflect] view of the argument of [Function] *)

Inductive Kind : Type :=
| Invalid | Bool | Int | Int8 | Int16 | Int32 | Int64
| Uint | Uint8 | Uint16 | Uint32 | Uint64 | Uintptr
| Float32 | Float64 | Complex64 | Complex128
| Array | Chan | Func | Interface | Map | Ptr | Slice
| String_ | Struct | UnsafePointer.

Definition Kind_String (k : Kind) : string :=
  match k with
  | Invalid => "invalid" | Bool => "bool" | Int => "int" | Int8 => "int8"
  | Int16 => "int16" | Int32 => "int32" | Int64 => "int64"
  | Uint => "uint" | Uint8 => "uint8" | Uint16 => "uint16"
  | Uint32 => "uint32" | Uint64 => "uint64" | Uintptr => "uintptr"
  | Float32 => "float32" | Float64 => "float64"
  | Complex64 => "complex64" | Complex128 => "complex128"
  | Array => "array" | Chan => "chan" | Func => "func"
  | Interface => "interface" | Map => "map" | Ptr => "ptr"
  | Slice => "slice" | String_ => "string" | Struct => "struct"
  | UnsafePointer => "unsafe.Pointer"
  end.

Definition isFunc (k : Kind) : bool :=
  match k with Func => true | _ => false end.

(** An output value of a reflected call, as the wrapper built by
    [Function] inspects it: [IsNil()] holds ([VNil]); or it is a non-nil
    error ([VErr]); or the inspection itself panics ([VOther], with the
    text of the run-time panic). *)
Inductive GoValue : Type :=
| VNil
| VErr (e : err)
| VOther (panicText : string).

Record rtype : Type := mkType {
  typeKind : Kind;
  NumIn : nat;
  NumOut : nat;
  (* typ.Out(NumOut-1).Implements(errorInterface) *)
  lastOutImplementsError : bool
}.

(** The dynamic content of an [interface{}]: nil, or a value with its type
    and (for functions) what calling it with no argument does at its
    [k]-th invocation. *)
Inductive iface : Type :=
| INil
| IValue (typ : rtype) (body : nat -> outcome (list GoValue)).

(** ** The platform

    The two services the package takes from the Go runtime: [rand.Int63n]
    (the [k]-th draw with bound [n]; the library returns a number of
    [[0, n)] for [0 < n] and panics otherwise) and [runtime.Stack] (the
    trace text available when the [k]-th invocation of the operation
    panics, for the current goroutine or for all of them). *)
Class Platform : Type := {
  Int63n : nat -> Z -> Z;
  Int63n_range : forall k n, 0 < n -> 0 <= Int63n k n < n;
  runtimeStack : nat -> bool -> string
}.

(** ** The [Retryable] record *)

(** [r.f] is a closure over the pointer [r]: the wrapper installed by
    [Function] reads [r.stackSize] and [r.allGoroutines] when it recovers,
    so the closure takes their current values, and the index of the
    invocation. *)
Definition closure : Type := Z -> bool -> nat -> outcome (option err).

Record Retryable : Type := mkRetryable {
  stackSize : Z;
  allGoroutines : bool;
  maxAttemptTimes : Z;
  maxDelay : Z;
  waitFixed : Z;
  waitRandomMin : Z;
  waitRandomMax : Z;
  f : closure;
  errors : list err
}.

Definition defaultStackSize : Z := 4096.
Definition defaultMaxAttemptTimes : Z := 1.

Definition New : Retryable :=
  {| stackSize := defaultStackSize;
     allGoroutines := false;
     maxAttemptTimes := defaultMaxAttemptTimes;
     maxDelay := 0;
     waitFixed := 0;
     waitRandomMin := 0;
     waitRandomMax := 0;
     f := fun _ _ _ => Return (Some ErrNoFunctionSpecified);
     errors := [] |}.

(** [r.errors = append(r.errors, e)] *)
Definition record (r : Retryable) (e : err) : Retryable :=
  {| stackSize := stackSize r; allGoroutines := allGoroutines r;
     maxAttemptTimes := maxAttemptTimes r; maxDelay := maxDelay r;
     waitFixed := waitFixed r; waitRandomMin := waitRandomMin r;
     waitRandomMax := waitRandomMax r; f := f r;
     errors := errors r ++ [e] |}.

Definition recordIf (c : bool) (r : Retryable) (e : err) : Retryable :=
  if c then record r e else r.

Definition Stack (r : Retryable) (n : Z) (all : bool) : Retryable :=
  let r := recordIf (n <=? 0) r (Errorf "stack size must be positive integer") in
  {| stackSize := n; allGoroutines := all;
     maxAttemptTimes := maxAttemptTimes r; maxDelay := maxDelay r;
     waitFixed := waitFixed r; waitRandomMin := waitRandomMin r;
     waitRandomMax := waitRandomMax r; f := f r; errors := errors r |}.

Definition MaxAttemptTimes (r : Retryable) (n : Z) : Retryable :=
  let r := recordIf (n <=? 0) r
             (Errorf "max attempt times must be positive integer") in
  {| stackSize := stackSize r; allGoroutines := allGoroutines r;
     maxAttemptTimes := n; maxDelay := maxDelay r;
     waitFixed := waitFixed r; waitRandomMin := waitRandomMin r;
     waitRandomMax := waitRandomMax r; f := f r; errors := errors r |}.

Definition MaxDelay (r : Retryable) (d : Z) : Retryable :=
  let r := recordIf (d <=? 0) r (Errorf "max delay must be positive duration") in
  {| stackSize := stackSize r; allGoroutines := allGoroutines r;
     maxAttemptTimes := maxAttemptTimes r; maxDelay := d;
     waitFixed := waitFixed r; waitRandomMin := waitRandomMin r;
     waitRandomMax := waitRandomMax r; f := f r; errors := errors r |}.

Definition WaitFixed (r : Retryable) (d : Z) : Retryable :=
  let r := recordIf (d <=? 0) r (Errorf "wait fixed must be positive duration") in
  {| stackSize := stackSize r; allGoroutines := allGoroutines r;
     maxAttemptTimes := maxAttemptTimes r; maxDelay := maxDelay r;
     waitFixed := d; waitRandomMin := waitRandomMin r;
     waitRandomMax := waitRandomMax r; f := f r; errors := errors r |}.

Definition WaitRandom (r : Retryable) (min max : Z) : Retryable :=
  let r := recordIf ((min <? 0) || (max <? 0)) r
             (Errorf "wait random min/max must be positive duration") in
  let r := recordIf (min >=? max) r
             (Errorf "wait random min must be smaller than max") in
  {| stackSize := stackSize r; allGoroutines := allGoroutines r;
     maxAttemptTimes := maxAttemptTimes r; maxDelay := maxDelay r;
     waitFixed := waitFixed r; waitRandomMin := min;
     waitRandomMax := max; f := f r; errors := errors r |}.

Definition setF (r : Retryable) (g : closure) : Retryable :=
  {| stackSize := stackSize r; allGoroutines := allGoroutines r;
     maxAttemptTimes := maxAttemptTimes r; maxDelay := maxDelay r;
     waitFixed := waitFixed r; waitRandomMin := waitRandomMin r;
     waitRandomMax := waitRandomMax r; f := g; errors := errors r |}.

Section Engine.

Context {P : Platform}.

(** ** The wrapper *)

(** [recover()] returns the payload exactly when the wrapped call is
    panicking, so [e != nil] is the [Panic] case.  [make([]byte, n)] itself
    panics for a negative [n], inside the deferred function. *)
Definition wrapRecoverFunc (g : nat -> outcome (option err)) : closure :=
  fun stackSize allGoroutines k =>
    match g k with
    | Return e => Return e
    | Panic e =>
        if stackSize <? 0 then Panic "runtime error: makeslice: len out of range"
        else
          let buf := fill (Z.to_nat stackSize) (runtimeStack k allGoroutines) in
          Return (Some (Errorf (e ++ nl ++ buf ++ nl)))
    end.

(** [val.Call(nil)]: reflect panics when the function wants arguments. *)
Definition reflectCall (typ : rtype) (body : nat -> outcome (list GoValue))
  (k : nat) : outcome (list GoValue) :=
  if (NumIn typ =? 0)%nat then body k
  else Panic "reflect: Call with too few input arguments".

(** The closure of the [case 0] branch. *)
Definition callNoOutput (typ : rtype) (body : nat -> outcome (list GoValue))
  (k : nat) : outcome (option err) :=
  match reflectCall typ body k with
  | Return _ => Return None
  | Panic p => Panic p
  end.

(** The closure of the [default] branch. *)
Definition callLastOutput (typ : rtype) (body : nat -> outcome (list GoValue))
  (k : nat) : outcome (option err) :=
  match reflectCall typ body k with
  | Return outputs =>
      match rev outputs with
      | [] => Panic "runtime error: index out of range [-1]"
      | VNil :: _ => Return None
      | VErr e :: _ => Return (Some e)
      | VOther p :: _ => Panic p
      end
  | Panic p => Panic p
  end.

(** [reflect.TypeOf(nil)] is the nil [Type]; calling [Kind()] on it is a nil
    dereference. *)
Definition Function (r : Retryable) (i : iface) : outcome Retryable :=
  match i with
  | INil => Panic "runtime error: invalid memory address or nil pointer dereference"
  | IValue typ body =>
      let kind := typeKind typ in
      if negb (isFunc kind) then
        Return (record r (Errorf ("expected type " ++ Kind_String Func
                                   ++ " but get " ++ Kind_String kind)))
      else
        let r := recordIf (negb (NumIn typ =? 0)%nat) r
                   (Errorf ("expected 0 inputs but get " ++ itoa (NumIn typ))) in
        let r := recordIf ((0 <? NumOut typ)%nat
                           && negb (lastOutImplementsError typ)) r
                   (Errorf "expected 0 output or last output implements error interface") in
        Return (setF r (wrapRecoverFunc
                          (match NumOut typ with
                           | O => callNoOutput typ body
                           | S _ => callLastOutput typ body
                           end)))
  end.

(** ** Backoff *)

Definition sleep (d : Z) : M unit :=
  fun w => (Return tt,
            {| calls := calls w; sleeps := sleeps w ++ [d]; draws := draws w |}).

(** [rand.Int63n(n)] on the shared source. *)
Definition randInt63n (n : Z) : M Z :=
  fun w =>
    if n <=? 0 then (Panic "invalid argument to Int63n", w)
    else (Return (Int63n (draws w) n),
          {| calls := calls w; sleeps := sleeps w; draws := S (draws w) |}).

Definition wait (r : Retryable) : M unit :=
  let duration := waitFixed r in
  if (duration <=? 0) && (waitRandomMax r >? waitRandomMin r) then
    d <- randInt63n (wrap64 (waitRandomMax r - waitRandomMin r)) ;;
    sleep (wrap64 (waitRandomMin r + d))
  else
    sleep duration.

(** ** Sequential mode *)

(** [r.f()] *)
Definition callF (r : Retryable) : M (option err) :=
  fun w => (f r (stackSize r) (allGoroutines r) (calls w),
            {| calls := S (calls w); sleeps := sleeps w; draws := draws w |}).

(** The loop [for count := ...; count > 0; count--] with [count] iterations
    left. *)
Fixpoint tryLoop (r : Retryable) (count : nat) (errs : list err)
  : M (option error) :=
  match count with
  | O => ret (ErrorOrNil errs)
  | S count' =>
      e <- callF r ;;
      let errs := Append errs [e] in
      match e with
      | None => ret None
      | Some _ => wait r ;;; tryLoop r count' errs
      end
  end.

Definition tryWithoutTimeout (r : Retryable) : M (option error) :=
  tryLoop r (Z.to_nat (maxAttemptTimes r)) [].

End Engine.

(** ** Bounded-time mode

    [tryWithTimeout] starts a producer goroutine and then selects between
    the unbuffered channel [errChan] and the timer.  The two goroutines
    share the variable [count].  The race is modelled by interleaving: a
    state holds the program point of each goroutine, and a schedule (a list
    of events) says which one moves next.  Time is abstract: the timer may
    expire at any moment ([TimerFires]). *)

(** Program points of [go func() { for ; count > 0; count-- { errChan <-
    r.f(); r.wait() } }()]. *)
Inductive Producer : Type :=
| PLoop                     (* at the loop condition [count > 0] *)
| PCall                     (* about to evaluate [r.f()] *)
| PSend (e : option err)    (* blocked on [errChan <- e] *)
| PWait                     (* about to run [r.wait()] *)
| PPost                     (* about to run [count--] *)
| PDone                     (* the loop is left, the goroutine ends *)
| PPanicked (p : string).   (* an unrecovered panic: the program dies *)

(** Program points of the [for { select { ... } }] of the caller. *)
Inductive Coordinator : Type :=
| CSelect                   (* blocked in [select] *)
| CRecv (e : option err)    (* [err := <-errChan] done, about to append *)
| CCheck                    (* about to test [count <= 0] *)
| CReturned (res : option error).

Record Race : Type := mkRace {
  count : Z;
  producer : Producer;
  coordinator : Coordinator;
  errs : list err;
  fired : bool;
  world : World
}.

Inductive Event : Type :=
| Produce       (* the producer runs its next statement *)
| Deliver       (* rendezvous: the send, and the receive case of select *)
| Coordinate    (* the coordinator runs its next statement *)
| TimerFires    (* the deadline elapses: the timer fills [timer.C] *)
| SelectTimer.  (* the case [<-timer.C] of select *)

Definition setProducer (s : Race) (p : Producer) (w : World) : Race :=
  {| count := count s; producer := p; coordinator := coordinator s;
     errs := errs s; fired := fired s; world := w |}.

Definition setCoordinator (s : Race) (c : Coordinator) (l : list err) : Race :=
  {| count := count s; producer := producer s; coordinator := c;
     errs := l; fired := fired s; world := world s |}.

Section Bounded.

Context {P : Platform}.

Definition produce (r : Retryable) (s : Race) : option Race :=
  match producer s with
  | PLoop =>
      Some (setProducer s (if count s >? 0 then PCall else PDone) (world s))
  | PCall =>
      match callF r (world s) with
      | (Return e, w) => Some (setProducer s (PSend e) w)
      | (Panic p, w) => Some (setProducer s (PPanicked p) w)
      end
  | PWait =>
      match wait r (world s) with
      | (Return _, w) => Some (setProducer s PPost w)
      | (Panic p, w) => Some (setProducer s (PPanicked p) w)
      end
  | PPost =>
      (* [count--], reached only from an iteration entered with [count > 0] *)
      Some {| count := count s - 1; producer := PLoop;
              coordinator := coordinator s; errs := errs s;
              fired := fired s; world := world s |}
  | PSend _ | PDone | PPanicked _ => None
  end.

Definition deliver (s : Race) : option Race :=
  match producer s, coordinator s with
  | PSend e, CSelect =>
      Some {| count := count s; producer := PWait; coordinator := CRecv e;
              errs := errs s; fired := fired s; world := world s |}
  | _, _ => None
  end.

Definition coordinate (s : Race) : option Race :=
  match coordinator s with
  | CRecv e =>
      let errors := Append (errs s) [e] in
      match e with
      | None => Some (setCoordinator s (CReturned None) errors)
      | Some _ => Some (setCoordinator s CCheck errors)
      end
  | CCheck =>
      if count s <=? 0
      then Some (setCoordinator s (CReturned (ErrorOrNil (errs s))) (errs s))
      else Some (setCoordinator s CSelect (errs s))
  | CSelect | CReturned _ => None
  end.

Definition timerFires (s : Race) : option Race :=
  if fired s then None
  else Some {| count := count s; producer := producer s;
               coordinator := coordinator s; errs := errs s;
               fired := true; world := world s |}.

Definition selectTimer (s : Race) : option Race :=
  match coordinator s with
  | CSelect =>
      if fired s
      then Some (setCoordinator s (CReturned (Some (Plain ErrTimeout))) (errs s))
      else None
  | _ => None
  end.

Definition step (r : Retryable) (ev : Event) (s : Race) : option Race :=
  match ev with
  | Produce => produce r s
  | Deliver => deliver s
  | Coordinate => coordinate s
  | TimerFires => timerFires s
  | SelectTimer => selectTimer s
  end.

(** What the caller of [tryWithTimeout] has got in state [s], if anything:
    the value returned by the coordinator, or the death of the program. *)
Definition finished (s : Race) : option (outcome (option error)) :=
  match coordinator s, producer s with
  | CReturned res, _ => Some (Return res)
  | _, PPanicked p => Some (Panic p)
  | _, _ => None
  end.

(** Runs the schedule until the caller has its result.  A schedule that
    names a goroutine that cannot move, or that ends too early, describes
    no run. *)
Fixpoint run (r : Retryable) (sched : list Event) (s : Race)
  : option (outcome (option error) * World) :=
  match finished s with
  | Some o => Some (o, world s)
  | None =>
      match sched with
      | [] => None
      | ev :: sched' =>
          match step r ev s with
          | Some s' => run r sched' s'
          | None => None
          end
      end
  end.

(** Runs the whole schedule, every event of it a move made while the
    caller is still waiting; the state reached. *)
Fixpoint exec (r : Retryable) (sched : list Event) (s : Race) : option Race :=
  match sched with
  | [] => Some s
  | ev :: sched' =>
      match finished s with
      | Some _ => None
      | None =>
          match step r ev s with
          | Some s' => exec r sched' s'
          | None => None
          end
      end
  end.

Definition start (r : Retryable) (w : World) : Race :=
  {| count := maxAttemptTimes r; producer := PLoop; coordinator := CSelect;
     errs := []; fired := false; world := w |}.

Definition tryWithTimeout (r : Retryable) (sched : list Event) (w : World)
  : option (outcome (option error) * World) :=
  run r sched (start r w).

(** ** [Try] *)

(** The schedule matters in bounded-time mode only. *)
Definition Try (r : Retryable) (sched : list Event) (w : World)
  : option (outcome (option error) * World) :=
  match ErrorOrNil (Append [] (map Some (errors r))) with
  | Some e => Some (Return (Some e), w)
  | None =>
      if maxDelay r >? 0 then tryWithTimeout r sched w
      else Some (tryWithoutTimeout r w)
  end.

End Bounded.

Definition world0 : World := {| calls := 0; sleeps := []; draws := 0 |}.

(** ** Chains of builder calls *)

Inductive Call : Type :=
| CStack (n : Z) (all : bool)
| CMaxAttemptTimes (n : Z)
| CMaxDelay (d : Z)
| CWaitFixed (d : Z)
| CWaitRandom (min max : Z)
| CFunction (i : iface).

Section Chains.

Context {P : Platform}.

Definition call (r : Retryable) (c : Call) : outcome Retryable :=
  match c with
  | CStack n all => Return (Stack r n all)
  | CMaxAttemptTimes n => Return (MaxAttemptTimes r n)
  | CMaxDelay d => Return (MaxDelay r d)
  | CWaitFixed d => Return (WaitFixed r d)
  | CWaitRandom min max => Return (WaitRandom r min max)
  | CFunction i => Function r i
  end.

(** [r.A(..).B(..)...]: a panic in one call ends the chain. *)
Fixpoint chain (r : Retryable) (cs : list Call) : outcome Retryable :=
  match cs with
  | [] => Return r
  | c :: cs' =>
      match call r c with
      | Return r' => chain r' cs'
      | Panic p => Panic p
      end
  end.

End Chains.

(** The arguments of a call fit their Go types. *)
Definition wellTyped (c : Call) : Prop :=
  match c with
  | CStack n _ => int64 n
  | CMaxAttemptTimes n => int64 n
  | CMaxDelay d => int64 d
  | CWaitFixed d => int64 d
  | CWaitRandom min max => int64 min /\ int64 max
  | CFunction _ => True
  end.

(** The policy invariants of a configuration that passed validation. *)
Record Validated (r : Retryable) : Prop := mkValidated {
  stackSize_positive : 0 < stackSize r;
  maxAttemptTimes_positive : 0 < maxAttemptTimes r;
  maxDelay_nonneg : 0 <= maxDelay r;
  waitFixed_nonneg : 0 <= waitFixed r;
  waitRandom_ordered : 0 <= waitRandomMin r <= waitRandomMax r;
  waitRandom_int64 : waitRandomMax r < 2 ^ 63
}.

(** The result of [r.f()] when [r.f] has been invoked [k] times before. *)
Definition invoke (r : Retryable) (k : nat) : outcome (option err) :=
  f r (stackSize r) (allGoroutines r) k.

(** ** Sample inputs

    A platform and the operations of the package's tests, used to run the
    model on concrete inputs. *)

Definition simplePlatform : Platform :=
  {| Int63n := fun k n => Z.of_nat k mod n;
     Int63n_range := fun k n H => Z.mod_pos_bound (Z.of_nat k) n H;
     runtimeStack := fun _ all =>
       if all then "goroutine 1 [running]: goroutine 2 [select]:"%string
       else "goroutine 1 [running]:"%string |}.

(** [func()] and [func() error]. *)
Definition funcNoOutput : rtype :=
  {| typeKind := Func; NumIn := 0; NumOut := 0; lastOutImplementsError := false |}.

Definition funcError : rtype :=
  {| typeKind := Func; NumIn := 0; NumOut := 1; lastOutImplementsError := true |}.

(** [func() { c--; if c == 2 { return }; panic("panic here") }] with
    [c = 5]: returns at its third invocation. *)
Definition panicsTwice : iface :=
  IValue funcNoOutput
    (fun k => if (k =? 2)%nat then Return [] else Panic "panic here").

(** [func() error { c--; if c == 2 { return nil }; return fmt.Errorf("") }] *)
Definition failsTwice : iface :=
  IValue funcError
    (fun k => if (k =? 2)%nat then Return [VNil] else Return [VErr (Errorf "")]).

(** [func() error { return fmt.Errorf("dllm") }] *)
Definition alwaysFails : iface :=
  IValue funcError (fun _ => Return [VErr (Errorf "dllm")]).

(** [func() { panic("DLLM") }] *)
Definition alwaysPanics : iface :=
  IValue funcNoOutput (fun _ => Panic "DLLM").

(** One attempt in which the coordinator tests [count <= 0] before the
    producer has come back from [wait] and decremented [count]: loop
    condition, [r.f()], rendezvous, append, test, [r.wait()], [count--]. *)
Definition checkFirst : list Event :=
  [Produce; Produce; Deliver; Coordinate; Coordinate; Produce; Produce].

(** One attempt in which the producer has run [r.wait()] and [count--]
    before the coordinator tests [count <= 0]. *)
Definition decrementFirst : list Event :=
  [Produce; Produce; Deliver; Coordinate; Produce; Produce; Coordinate].

Fixpoint rounds (n : nat) : list Event :=
  match n with
  | O => []
  | S n' => checkFirst ++ rounds n'
  end.

(** After the rounds the producer leaves its loop; then the deadline
    elapses and the coordinator takes the timer case. *)
Definition thenDeadline : list Event := [Produce; TimerFires; SelectTimer].

(** The receiver after [r.Function(i)]; a panicking call leaves it as it
    was. *)
Definition bound {P : Platform} (r : Retryable) (i : iface) : Retryable :=
  match Function r i with
  | Return r' => r'
  | Panic _ => r
  end.

(** ** The race on an operation that always fails

    The states of a bounded-time run of [N] attempts whose [k]-th failure is
    [fails k], started when the operation had been invoked [c0] times:
    [d] is the number of [count--] done so far. *)

(** What the coordinator holds once [k] results have been handed over. *)
Definition received (fails : nat -> err) (c0 N k : nat) (s : Race) : Prop :=
  match coordinator s with
  | CSelect | CCheck => errs s = map fails (seq c0 k)
  | CRecv e =>
      exists k', k = S k' /\ e = Some (fails (c0 + k')%nat)
                 /\ errs s = map fails (seq c0 k')
  | CReturned res =>
      res = Some (Plain ErrTimeout)
      \/ res = Some (Multi (map fails (seq c0 N)))
  end.

Definition allFail (fails : nat -> err) (c0 N : nat) (s : Race) : Prop :=
  exists d : nat,
    (d <= N)%nat
    /\ count s = Z.of_nat (N - d)
    /\ match producer s with
       | PLoop => calls (world s) = (c0 + d)%nat /\ received fails c0 N d s
       | PCall =>
           (d < N)%nat /\ calls (world s) = (c0 + d)%nat
           /\ received fails c0 N d s
       | PSend e =>
           (d < N)%nat /\ calls (world s) = (c0 + S d)%nat
           /\ e = Some (fails (c0 + d)%nat) /\ received fails c0 N d s
       | PWait | PPost =>
           (d < N)%nat /\ calls (world s) = (c0 + S d)%nat
           /\ received fails c0 N (S d) s
       | PDone => d = N /\ received fails c0 N N s
       | PPanicked _ => False
       end.

(** The chain of the package's README:
    [Stack(2048, true).MaxAttemptTimes(5).Function(..).WaitFixed(time.Second)
    .WaitRandom(time.Second, 3*time.Second).MaxDelay(time.Minute)]. *)
Definition readme : list Call :=
  [CStack 2048 true; CMaxAttemptTimes 5; CFunction alwaysFails;
   CWaitFixed 1000000000; CWaitRandom 1000000000 3000000000;
   CMaxDelay 60000000000].

(** ** The race on an operation that succeeds

    The states of a bounded-time run in which the result of the invocation
    number [c0 + m] is nil, the results being [res]: [d] is the number of
    [count--] done so far, [j] the number of results handed over. *)
Definition handed (res : nat -> option err) (c0 m j : nat) (s : Race) : Prop :=
  match coordinator s with
  | CSelect | CCheck => (j <= m)%nat
  | CRecv e =>
      exists j', j = S j' /\ (j' <= m)%nat /\ e = res (c0 + j')%nat
  | CReturned o => o = None \/ o = Some (Plain ErrTimeout)
  end.

Definition untilSuccess (res : nat -> option err) (c0 N m : nat) (s : Race)
  : Prop :=
  exists d : nat,
    (d <= S m)%nat
    /\ count s = Z.of_nat N - Z.of_nat d
    /\ match producer s with
       | PLoop | PCall | PDone =>
           calls (world s) = (c0 + d)%nat /\ handed res c0 m d s
       | PSend e =>
           calls (world s) = (c0 + S d)%nat
           /\ ((d <= m)%nat -> e = res (c0 + d)%nat)
           /\ handed res c0 m d s
       | PWait | PPost =>
           (d <= m)%nat /\ calls (world s) = (c0 + S d)%nat
           /\ handed res c0 m (S d) s
       | PPanicked _ => False
       end.

(** The fields of a configuration whose builder calls recorded no error:
    the defaults of [New], or values that passed the test of their call. *)
Definition policy (r : Retryable) : Prop :=
  0 < stackSize r
  /\ 0 < maxAttemptTimes r
  /\ 0 <= maxDelay r
  /\ 0 <= waitFixed r
  /\ (waitRandomMin r = 0 /\ waitRandomMax r = 0
      \/ 0 <= waitRandomMin r < waitRandomMax r).

(** The slot [r.f] holds the placeholder of [New] or a closure made by
    [wrapRecoverFunc]. *)
Definition guarded {P : Platform} (r : Retryable) : Prop :=
  f r = f New \/ exists g, f r = wrapRecoverFunc g.

(** The durations [wait] may hand to [sleep] on a validated configuration:
    the fixed wait when there is one, else a duration of the random range
    when there is one, else zero. *)
Definition backoff (r : Retryable) (d : Z) : Prop :=
  if 0 <? waitFixed r then d = waitFixed r
  else if waitRandomMin r <? waitRandomMax r
       then waitRandomMin r <= d < waitRandomMax r
       else d = 0.

(** Two configurations with the same options (all fields but the slot and
    the recorded errors). *)
Definition sameOptions (r a : Retryable) : Prop :=
  stackSize r = stackSize a /\ allGoroutines r = allGoroutines a
  /\ maxAttemptTimes r = maxAttemptTimes a /\ maxDelay r = maxDelay a
  /\ waitFixed r = waitFixed a /\ waitRandomMin r = waitRandomMin a
  /\ waitRandomMax r = waitRandomMax a.

(** ** The budget of invocations

    The states of a bounded-time run that may still reach at most [B]
    invocations of the slot, having started with [c0]: the producer invokes
    it once for each value of [count] it finds positive. *)
Definition budget (c0 : nat) (B : Z) (s : Race) : Prop :=
  (c0 <= calls (world s))%nat
  /\ match producer s with
     | PLoop | PDone => Z.of_nat (calls (world s)) + Z.max 0 (count s) <= B
     | PCall =>
         0 < count s /\ Z.of_nat (calls (world s)) + count s <= B
     | PSend _ | PWait | PPost =>
         0 < count s /\ Z.of_nat (calls (world s)) + count s - 1 <= B
     | PPanicked _ => Z.of_nat (calls (world s)) <= B
     end.

(** * Properties *)

(** ** Basic facts *)

Lemma Append_nil_map (l : list err) : Append [] (map Some l) = l.
Proof.
  unfold Append. simpl.
  induction l as [|e l IH]; simpl; [reflexivity|now rewrite IH].
Qed.

Lemma Append_one (l : list err) (e : err) : Append l [Some e] = l ++ [e].
Proof. reflexivity. Qed.

Lemma ErrorOrNil_nonempty (l : list err) :
  l <> [] -> ErrorOrNil l = Some (Multi l).
Proof. destruct l; [congruence|reflexivity]. Qed.

Lemma wrap64_id (x : Z) : int64 x -> wrap64 x = x.
Proof.
  unfold int64, wrap64. intros H.
  rewrite Z.mod_small; lia.
Qed.

Lemma length_zeros (n : nat) : String.length (zeros n) = n.
Proof. induction n; simpl; congruence. Qed.

Lemma length_fill (n : nat) (trace : string) : String.length (fill n trace) = n.
Proof.
  revert trace. induction n as [|n IH]; intros trace; [reflexivity|].
  destruct trace as [|c rest]; cbn [fill].
  - apply length_zeros.
  - simpl. now rewrite IH.
Qed.

(** The buffer is the trace cut at [n] bytes, followed by zero bytes. *)
Lemma fill_spec (n : nat) (trace : string) :
  fill n trace
  = (substring 0 n trace
     ++ zeros (n - String.length (substring 0 n trace)))%string.
Proof.
  revert trace. induction n as [|n IH]; intros trace.
  - destruct trace; reflexivity.
  - destruct trace as [|c rest]; cbn [fill].
    + reflexivity.
    + cbn [substring String.append String.length]. rewrite IH.
      now cbn [Nat.sub].
Qed.

Section Facts.

Context {P : Platform}.

Lemma Try_invalid (r : Retryable) (sched : list Event) (w : World) :
  errors r <> [] ->
  Try r sched w = Some (Return (Some (Multi (errors r))), w).
Proof.
  intros H. unfold Try. rewrite Append_nil_map.
  now rewrite (ErrorOrNil_nonempty _ H).
Qed.

Lemma Try_unbounded (r : Retryable) (sched : list Event) (w : World) :
  errors r = [] -> maxDelay r <= 0 ->
  Try r sched w = Some (tryWithoutTimeout r w).
Proof.
  intros He Hd. unfold Try. rewrite Append_nil_map, He. cbn [ErrorOrNil].
  destruct (maxDelay r >? 0) eqn:E; [|reflexivity].
  apply Z.gtb_lt in E. lia.
Qed.

Lemma Try_bounded (r : Retryable) (sched : list Event) (w : World) :
  errors r = [] -> 0 < maxDelay r ->
  Try r sched w = tryWithTimeout r sched w.
Proof.
  intros He Hd. unfold Try. rewrite Append_nil_map, He. cbn [ErrorOrNil].
  destruct (maxDelay r >? 0) eqn:E; [reflexivity|].
  rewrite Z.gtb_ltb in E. apply Z.ltb_ge in E. lia.
Qed.

End Facts.

(** ** The package's tests, run on the model *)

Section Tests.

#[local] Existing Instance simplePlatform.

Example TestStack : List.length (errors (Stack New (-1) false)) = 1%nat.
Proof. reflexivity. Qed.

Example TestMaxDelay : List.length (errors (MaxDelay New 0)) = 1%nat.
Proof. reflexivity. Qed.

Example TestWaitRandom :
  List.length (errors (WaitRandom New (-1) 1000000000)) = 1%nat
  /\ List.length (errors (WaitRandom New 60000000000 1000000000)) = 1%nat
  /\ List.length (errors (WaitRandom New (-1) (-1))) = 2%nat.
Proof. repeat split. Qed.

(** [Function(1)] and [Function(func(_ int) int { return 1 })] *)
Example TestFunction :
  List.length
    (errors (bound New (IValue (mkType Int 0 0 false) (fun _ => Return []))))
  = 1%nat
  /\ List.length
       (errors (bound New (IValue (mkType Func 1 1 false)
                             (fun _ => Return [VOther "not an error"]))))
     = 2%nat.
Proof. split; reflexivity. Qed.

(** "no function specified" *)
Example TestTry_no_function :
  Try New [] world0
  = Some (Return (ErrorOrNil (Append [] [Some ErrNoFunctionSpecified])),
          {| calls := 1; sleeps := [0]; draws := 0 |}).
Proof. reflexivity. Qed.

(** "succeed after two panics" and "succeed after two errors" *)
Example TestTry_retries :
  Try (bound (MaxAttemptTimes New 5) panicsTwice) [] world0
  = Some (Return None, {| calls := 3; sleeps := [0; 0]; draws := 0 |})
  /\ Try (WaitRandom (bound (MaxAttemptTimes New 5) failsTwice)
            1000000000 2000000000) [] world0
     = Some (Return None,
             {| calls := 3; sleeps := [1000000000; 1000000001]; draws := 2 |}).
Proof. split; reflexivity. Qed.

(** "timeout": the deadline elapses while the first invocation is still
    running. *)
Example TestTry_timeout :
  Try (bound (MaxDelay New 1000000000) (IValue funcNoOutput (fun _ => Return [])))
    [Produce; TimerFires; SelectTimer] world0
  = Some (Return (Some (Plain ErrTimeout)), world0).
Proof. reflexivity. Qed.

(** "succeed before timeout" *)
Example TestTry_succeeds_before_timeout :
  Try (bound (MaxDelay New 60000000000)
         (IValue funcNoOutput (fun _ => Return [])))
    [Produce; Produce; Deliver; Coordinate] world0
  = Some (Return None, {| calls := 1; sleeps := []; draws := 0 |}).
Proof. reflexivity. Qed.

(** "fail before timeout", when the producer's [count--] comes first. *)
Example TestTry_fails_before_timeout :
  Try (bound (Stack (MaxDelay New 60000000000) 8 false) alwaysPanics)
    decrementFirst world0
  = Some (Return (Some (Multi [Errorf ("DLLM" ++ nl ++ "goroutin" ++ nl)])),
          {| calls := 1; sleeps := [0]; draws := 0 |}).
Proof. reflexivity. Qed.

End Tests.

(** ** The builder *)

Section Builder.

Context {P : Platform}.

Lemma recordIf_errors (c : bool) (r : Retryable) (e : err) :
  errors (recordIf c r e) = errors r ++ (if c then [e] else []).
Proof. destruct c; simpl; [reflexivity|now rewrite app_nil_r]. Qed.

Lemma Stack_errors r n all :
  errors (Stack r n all)
  = errors r ++ (if n <=? 0
                 then [Errorf "stack size must be positive integer"] else []).
Proof. unfold Stack. cbn [errors]. apply recordIf_errors. Qed.

Lemma MaxAttemptTimes_errors r n :
  errors (MaxAttemptTimes r n)
  = errors r ++ (if n <=? 0
                 then [Errorf "max attempt times must be positive integer"]
                 else []).
Proof. unfold MaxAttemptTimes. cbn [errors]. apply recordIf_errors. Qed.

Lemma MaxDelay_errors r d :
  errors (MaxDelay r d)
  = errors r ++ (if d <=? 0
                 then [Errorf "max delay must be positive duration"] else []).
Proof. unfold MaxDelay. cbn [errors]. apply recordIf_errors. Qed.

Lemma WaitFixed_errors r d :
  errors (WaitFixed r d)
  = errors r ++ (if d <=? 0
                 then [Errorf "wait fixed must be positive duration"] else []).
Proof. unfold WaitFixed. cbn [errors]. apply recordIf_errors. Qed.

Lemma WaitRandom_errors r min max :
  errors (WaitRandom r min max)
  = errors r
    ++ (if (min <? 0) || (max <? 0)
        then [Errorf "wait random min/max must be positive duration"] else [])
    ++ (if min >=? max
        then [Errorf "wait random min must be smaller than max"] else []).
Proof.
  unfold WaitRandom. cbn [errors].
  rewrite !recordIf_errors. now rewrite <- app_assoc.
Qed.

Lemma Function_errors r i r' :
  Function r i = Return r' -> exists l, errors r' = errors r ++ l.
Proof.
  destruct i as [|typ body]; cbn [Function]; [discriminate|].
  destruct (negb (isFunc (typeKind typ))); intros H; inversion H; subst; clear H.
  - eexists. reflexivity.
  - cbn [setF errors]. rewrite !recordIf_errors, <- app_assoc.
    eexists. reflexivity.
Qed.

(** No builder call removes a recorded error. *)
Lemma call_errors (r r' : Retryable) (c : Call) :
  call r c = Return r' -> exists l, errors r' = errors r ++ l.
Proof.
  destruct c; cbn [call]; intros H.
  1-5: inversion H; subst; clear H.
  - rewrite Stack_errors. eexists; reflexivity.
  - rewrite MaxAttemptTimes_errors. eexists; reflexivity.
  - rewrite MaxDelay_errors. eexists; reflexivity.
  - rewrite WaitFixed_errors. eexists; reflexivity.
  - rewrite WaitRandom_errors. eexists; reflexivity.
  - eapply Function_errors; eassumption.
Qed.

Lemma chain_errors (cs : list Call) (r r' : Retryable) :
  chain r cs = Return r' -> exists l, errors r' = errors r ++ l.
Proof.
  revert r. induction cs as [|c cs IH]; intros r; cbn [chain].
  - intros H. inversion H; subst. exists []. now rewrite app_nil_r.
  - destruct (call r c) as [r1|p] eqn:E; [|discriminate].
    intros H. destruct (call_errors _ _ _ E) as [l1 H1].
    destruct (IH _ H) as [l2 H2].
    exists (l1 ++ l2). now rewrite H2, H1, app_assoc.
Qed.

(** What a call does to the validated fields. *)
Lemma call_validated (r r' : Retryable) (c : Call) :
  wellTyped c ->
  (errors r = [] -> Validated r) ->
  call r c = Return r' ->
  errors r' = [] -> Validated r'.
Proof.
  intros Hty Hr Hc He.
  destruct (call_errors _ _ _ Hc) as [l Hl].
  assert (Hnil : errors r = []).
  { rewrite Hl in He. now apply app_eq_nil in He. }
  specialize (Hr Hnil). destruct Hr as [h1 h2 h3 h4 h5 h6].
  destruct c; cbn [call] in Hc.
  1-5: inversion Hc; subst; clear Hc.
  - rewrite Stack_errors, Hnil in He. cbn [app] in He.
    destruct (n <=? 0) eqn:E; [discriminate|].
    unfold Stack, recordIf. rewrite E. apply Z.leb_gt in E.
    constructor; cbn; try assumption; lia.
  - rewrite MaxAttemptTimes_errors, Hnil in He. cbn [app] in He.
    destruct (n <=? 0) eqn:E; [discriminate|].
    unfold MaxAttemptTimes, recordIf. rewrite E. apply Z.leb_gt in E.
    constructor; cbn; try assumption; lia.
  - rewrite MaxDelay_errors, Hnil in He. cbn [app] in He.
    destruct (d <=? 0) eqn:E; [discriminate|].
    unfold MaxDelay, recordIf. rewrite E. apply Z.leb_gt in E.
    constructor; cbn; try assumption; lia.
  - rewrite WaitFixed_errors, Hnil in He. cbn [app] in He.
    destruct (d <=? 0) eqn:E; [discriminate|].
    unfold WaitFixed, recordIf. rewrite E. apply Z.leb_gt in E.
    constructor; cbn; try assumption; lia.
  - rewrite WaitRandom_errors, Hnil in He. cbn [app] in He.
    destruct ((min <? 0) || (max <? 0)) eqn:E1; [discriminate|].
    destruct (min >=? max) eqn:E2; [discriminate|].
    unfold WaitRandom, recordIf. rewrite E1, E2.
    apply orb_false_iff in E1. destruct E1 as [E1 E3].
    apply Z.ltb_ge in E1. apply Z.ltb_ge in E3.
    rewrite Z.geb_leb in E2. apply Z.leb_gt in E2.
    destruct Hty as [_ Hmax]. unfold int64 in Hmax.
    constructor; cbn; try assumption; lia.
  - destruct i as [|typ body]; cbn [Function] in Hc; [discriminate|].
    destruct (negb (isFunc (typeKind typ))) eqn:E.
    + inversion Hc; subst. cbn in He. now destruct (errors r).
    + inversion Hc; subst; clear Hc. unfold recordIf.
      destruct (negb (NumIn typ =? 0)%nat);
        destruct ((0 <? NumOut typ)%nat && negb (lastOutImplementsError typ));
        constructor; cbn; assumption.
Qed.

Lemma New_validated : Validated New.
Proof.
  constructor; unfold New, defaultStackSize, defaultMaxAttemptTimes;
    cbn [stackSize maxAttemptTimes maxDelay waitFixed waitRandomMin
         waitRandomMax]; lia.
Qed.

(** A configuration built from [New] with no recorded error satisfies the
    policy invariants. *)
Lemma chain_validated (cs : list Call) (r : Retryable) :
  Forall wellTyped cs ->
  chain New cs = Return r ->
  errors r = [] -> Validated r.
Proof.
  intros Hty. 
  assert (G : forall r0, (errors r0 = [] -> Validated r0) ->
                         chain r0 cs = Return r -> errors r = [] -> Validated r).
  { induction Hty as [|c cs Hc Hcs IH]; intros r0 H0; cbn [chain].
    - intros H. inversion H; subst. exact H0.
    - destruct (call r0 c) as [r1|p] eqn:E; [|discriminate].
      apply IH. intros H1. eapply call_validated; eassumption. }
  apply G. intros _. exact New_validated.
Qed.

End Builder.

(** ** The sequential engine *)

Section Sequential.

Context {P : Platform}.

Lemma callF_invoke (r : Retryable) (w : World) :
  callF r w
  = (invoke r (calls w),
     {| calls := S (calls w); sleeps := sleeps w; draws := draws w |}).
Proof. reflexivity. Qed.

(** On a validated configuration [wait] returns, after one call of
    [sleep]; it does not touch the operation. *)
Lemma wait_returns (r : Retryable) (w : World) :
  Validated r ->
  exists w', wait r w = (Return tt, w')
             /\ calls w' = calls w
             /\ List.length (sleeps w') = S (List.length (sleeps w)).
Proof.
  intros [_ _ _ Hf [Hmin Hmax] Hr]. unfold wait.
  destruct ((waitFixed r <=? 0) && (waitRandomMax r >? waitRandomMin r)) eqn:E.
  - apply andb_true_iff in E. destruct E as [_ E]. apply Z.gtb_lt in E.
    unfold bind, randInt63n.
    rewrite wrap64_id by (unfold int64; lia).
    destruct (waitRandomMax r - waitRandomMin r <=? 0) eqn:E0.
    + apply Z.leb_le in E0. lia.
    + eexists. split; [reflexivity|]. cbn. split; [reflexivity|].
      rewrite length_app. cbn. lia.
  - eexists. split; [reflexivity|]. cbn. split; [reflexivity|].
    rewrite length_app. cbn. lia.
Qed.

(** One failed attempt: the failure is appended, [wait] runs, and the
    loop goes on with one attempt less. *)
Lemma tryLoop_failure (r : Retryable) (n : nat) (l : list err) (w : World)
  (e : err) :
  invoke r (calls w) = Return (Some e) ->
  tryLoop r (S n) l w
  = (wait r ;;; tryLoop r n (l ++ [e]))
      {| calls := S (calls w); sleeps := sleeps w; draws := draws w |}.
Proof.
  intros H. cbn [tryLoop]. unfold bind at 1. rewrite callF_invoke, H.
  reflexivity.
Qed.

Lemma tryLoop_success (r : Retryable) (n : nat) (l : list err) (w : World) :
  invoke r (calls w) = Return None ->
  tryLoop r (S n) l w
  = (Return None,
     {| calls := S (calls w); sleeps := sleeps w; draws := draws w |}).
Proof.
  intros H. cbn [tryLoop]. unfold bind at 1. rewrite callF_invoke, H.
  reflexivity.
Qed.

Lemma tryLoop_all_fail (r : Retryable) (fails : nat -> err) :
  Validated r ->
  (forall k, invoke r k = Return (Some (fails k))) ->
  forall (n : nat) (l : list err) (w : World),
  exists w',
    tryLoop r n l w
    = (Return (ErrorOrNil (l ++ map fails (seq (calls w) n))), w')
    /\ calls w' = (calls w + n)%nat
    /\ List.length (sleeps w') = (List.length (sleeps w) + n)%nat.
Proof.
  intros Hv Hf. induction n as [|n IH]; intros l w.
  - exists w. cbn. rewrite app_nil_r. split; [reflexivity|]. split; lia.
  - rewrite (tryLoop_failure r n l w (fails (calls w))) by apply Hf.
    set (w1 := {| calls := S (calls w); sleeps := sleeps w; draws := draws w |}).
    destruct (wait_returns r w1 Hv) as (w2 & Hw & Hc & Hs).
    destruct (IH (l ++ [fails (calls w)]) w2) as (w3 & Ht & Hc3 & Hs3).
    exists w3. unfold bind. rewrite Hw, Ht, Hc. cbn [calls w1 seq map].
    rewrite <- app_assoc. cbn [app].
    split; [reflexivity|].
    rewrite Hc3, Hs3, Hc, Hs. cbn. split; lia.
Qed.

Lemma tryLoop_first_success (r : Retryable) :
  Validated r ->
  forall (k n : nat) (l : list err) (w : World),
  (k < n)%nat ->
  (forall i, (i < k)%nat -> exists e, invoke r (calls w + i) = Return (Some e)) ->
  invoke r (calls w + k) = Return None ->
  exists w',
    tryLoop r n l w = (Return None, w')
    /\ calls w' = (calls w + S k)%nat
    /\ List.length (sleeps w') = (List.length (sleeps w) + k)%nat.
Proof.
  intros Hv. induction k as [|k IH]; intros n l w Hlt Hfail Hok.
  - destruct n as [|n]; [lia|].
    rewrite Nat.add_0_r in Hok. rewrite (tryLoop_success _ _ _ _ Hok).
    eexists. split; [reflexivity|]. cbn. split; lia.
  - destruct n as [|n]; [lia|].
    destruct (Hfail 0%nat ltac:(lia)) as [e He]. rewrite Nat.add_0_r in He.
    rewrite (tryLoop_failure _ _ _ _ _ He).
    set (w1 := {| calls := S (calls w); sleeps := sleeps w; draws := draws w |}).
    destruct (wait_returns r w1 Hv) as (w2 & Hw & Hc & Hs).
    destruct (IH n (l ++ [e]) w2) as (w3 & Ht & Hc3 & Hs3).
    + lia.
    + intros i Hi. rewrite Hc. cbn [calls w1].
      destruct (Hfail (S i) ltac:(lia)) as [e' He'].
      exists e'. rewrite <- He'. f_equal. lia.
    + rewrite Hc. cbn [calls w1]. rewrite <- Hok. f_equal. lia.
    + exists w3. unfold bind. rewrite Hw, Ht.
      split; [reflexivity|]. rewrite Hc3, Hs3, Hc, Hs. cbn. split; lia.
Qed.

End Sequential.

(** ** Configuration-time validation *)

(** C10. [Function(nil)] does not record a validation error: inspecting
    the kind of the nil type panics inside the builder call, and nothing
    recovers it, so the call (and any chain through it) ends in that panic
    for its caller. *)
Theorem C10_Function_nil_panics {P : Platform} (r : Retryable) :
  Function r INil
  = Panic "runtime error: invalid memory address or nil pointer dereference"
  /\ (forall r', Function r INil <> Return r')
  /\ (forall cs,
        chain r (CFunction INil :: cs)
        = Panic "runtime error: invalid memory address or nil pointer dereference").
Proof.
  split; [reflexivity|]. split.
  - intros r'. cbn [Function]. discriminate.
  - intros cs. reflexivity.
Qed.

(** C9. The list of validation errors only grows along a chain of builder
    calls: the list after the chain is the list before it followed by what
    the chain recorded.  Hence once an error has been recorded, [Try] on
    the configuration reached by any further calls returns a non-nil error
    (the composite of the recorded errors) and leaves the world untouched:
    the operation is not invoked and nothing sleeps, whatever values the
    later calls supply. *)
Theorem C9_validation_errors_monotone {P : Platform}
  (r r' : Retryable) (cs : list Call) :
  chain r cs = Return r' ->
  (exists l, errors r' = errors r ++ l)
  /\ (errors r <> [] ->
      forall sched w,
        Try r' sched w = Some (Return (Some (Multi (errors r'))), w)).
Proof.
  intros H. destruct (chain_errors _ _ _ H) as [l Hl].
  split; [now exists l|].
  intros Hne sched w. apply Try_invalid.
  rewrite Hl. intros E. apply app_eq_nil in E. tauto.
Qed.

(** A later valid value for the offending option does not clear the error. *)
Lemma C9_witness :
  chain (P := simplePlatform) (MaxAttemptTimes New 0)
    [CMaxAttemptTimes 3; CFunction alwaysFails]
  = Return (bound (P := simplePlatform)
              (MaxAttemptTimes (MaxAttemptTimes New 0) 3) alwaysFails)
  /\ Try (P := simplePlatform)
       (bound (P := simplePlatform)
          (MaxAttemptTimes (MaxAttemptTimes New 0) 3) alwaysFails) [] world0
     = Some (Return (Some (Multi
               [Errorf "max attempt times must be positive integer"])), world0).
Proof.
  split; [reflexivity|].
  refine (proj2 (C9_validation_errors_monotone (P := simplePlatform)
                   (MaxAttemptTimes New 0) _
                   [CMaxAttemptTimes 3; CFunction alwaysFails] eq_refl)
            _ [] world0).
  cbn. discriminate.
Defined.

(** C5. On a configuration with no recorded error, one builder call with an
    invalid value makes [Try] return the composite of exactly one
    validation error for each rule the value breaks (a non-positive attempt
    count, a non-positive deadline, a non-positive fixed wait, a negative
    random bound, random bounds with [max <= min]; a pair of bounds that
    is both negative and not increasing breaks two rules and gives two
    errors), and [Try] returns the world as it got it: no invocation of the
    operation, no sleep. *)
Theorem C5_single_invalid_field {P : Platform}
  (r : Retryable) (sched : list Event) (w : World) :
  errors r = [] ->
  (forall n, n <= 0 ->
     Try (MaxAttemptTimes r n) sched w
     = Some (Return (Some (Multi
               [Errorf "max attempt times must be positive integer"])), w))
  /\ (forall d, d <= 0 ->
        Try (MaxDelay r d) sched w
        = Some (Return (Some (Multi
                  [Errorf "max delay must be positive duration"])), w))
  /\ (forall d, d <= 0 ->
        Try (WaitFixed r d) sched w
        = Some (Return (Some (Multi
                  [Errorf "wait fixed must be positive duration"])), w))
  /\ (forall min max, min < 0 \/ max < 0 -> min < max ->
        Try (WaitRandom r min max) sched w
        = Some (Return (Some (Multi
                  [Errorf "wait random min/max must be positive duration"])), w))
  /\ (forall min max, 0 <= min -> 0 <= max -> max <= min ->
        Try (WaitRandom r min max) sched w
        = Some (Return (Some (Multi
                  [Errorf "wait random min must be smaller than max"])), w))
  /\ (forall min max, min < 0 \/ max < 0 -> max <= min ->
        Try (WaitRandom r min max) sched w
        = Some (Return (Some (Multi
                  [Errorf "wait random min/max must be positive duration";
                   Errorf "wait random min must be smaller than max"])), w)).
Proof.
  intros He.
  assert (T : forall r' l, errors r' = l -> l <> [] ->
                 Try r' sched w = Some (Return (Some (Multi l)), w)).
  { intros r' l <- Hl. now apply Try_invalid. }
  repeat split.
  - intros n Hn. apply T; [|discriminate].
    rewrite MaxAttemptTimes_errors, He.
    destruct (n <=? 0) eqn:E; [reflexivity|]. apply Z.leb_gt in E. lia.
  - intros d Hd. apply T; [|discriminate].
    rewrite MaxDelay_errors, He.
    destruct (d <=? 0) eqn:E; [reflexivity|]. apply Z.leb_gt in E. lia.
  - intros d Hd. apply T; [|discriminate].
    rewrite WaitFixed_errors, He.
    destruct (d <=? 0) eqn:E; [reflexivity|]. apply Z.leb_gt in E. lia.
  - intros min max Hneg Hlt. apply T; [|discriminate].
    rewrite WaitRandom_errors, He.
    replace ((min <? 0) || (max <? 0)) with true
      by (symmetry; apply orb_true_iff; rewrite !Z.ltb_lt; exact Hneg).
    replace (min >=? max) with false
      by (symmetry; rewrite Z.geb_leb; apply Z.leb_gt; lia).
    reflexivity.
  - intros min max H0 H1 Hle. apply T; [|discriminate].
    rewrite WaitRandom_errors, He.
    replace ((min <? 0) || (max <? 0)) with false
      by (symmetry; apply orb_false_iff; rewrite !Z.ltb_ge; lia).
    replace (min >=? max) with true
      by (symmetry; rewrite Z.geb_leb; apply Z.leb_le; lia).
    reflexivity.
  - intros min max Hneg Hle. apply T; [|discriminate].
    rewrite WaitRandom_errors, He.
    replace ((min <? 0) || (max <? 0)) with true
      by (symmetry; apply orb_true_iff; rewrite !Z.ltb_lt; exact Hneg).
    replace (min >=? max) with true
      by (symmetry; rewrite Z.geb_leb; apply Z.leb_le; lia).
    reflexivity.
Qed.

(** [New().Function(alwaysFails).MaxAttemptTimes(-1).Try()] *)
Lemma C5_witness :
  errors (bound (P := simplePlatform) New alwaysFails) = []
  /\ Try (P := simplePlatform)
       (MaxAttemptTimes (bound (P := simplePlatform) New alwaysFails) (-1))
       [] world0
     = Some (Return (Some (Multi
               [Errorf "max attempt times must be positive integer"])), world0).
Proof.
  split; [reflexivity|].
  refine (proj1 (C5_single_invalid_field (P := simplePlatform)
                   (bound (P := simplePlatform) New alwaysFails) [] world0
                   eq_refl) (-1) _).
  lia.
Defined.

(** ** No operation bound *)

(** C2, as stated, fails: with no [Function] call the slot [r.f] holds a
    placeholder that returns [ErrNoFunctionSpecified], no validation error
    is recorded, and [Try] runs the engine on the placeholder.  With three
    attempts and a fixed wait of 7 the slot is invoked three times, [sleep]
    runs three times, and the result holds three components; it is not the
    single-error report with an untouched world. *)
Lemma C2_counterexample :
  Try (P := simplePlatform) (WaitFixed (MaxAttemptTimes New 3) 7) [] world0
  = Some (Return (Some (Multi [ErrNoFunctionSpecified; ErrNoFunctionSpecified;
                               ErrNoFunctionSpecified])),
          {| calls := 3; sleeps := [7; 7; 7]; draws := 0 |})
  /\ Try (P := simplePlatform) (WaitFixed (MaxAttemptTimes New 3) 7) [] world0
     <> Some (Return (Some (Multi [ErrNoFunctionSpecified])), world0)
  /\ errors (WaitFixed (MaxAttemptTimes New 3) 7) = [].
Proof.
  split; [reflexivity|]. split; [|reflexivity].
  cbv. discriminate.
Qed.

(** C2, amended.  On a validated configuration with no recorded error, no
    deadline and the placeholder still in the slot, [Try] treats the
    placeholder as an operation that always fails: it is invoked
    [maxAttemptTimes] times, [wait] runs after each invocation, and [Try]
    returns the composite of [maxAttemptTimes] copies of
    [ErrNoFunctionSpecified] (one copy for the default single attempt). *)
Theorem C2_placeholder_runs_as_operation {P : Platform}
  (r : Retryable) (N : nat) (sched : list Event) (w : World) :
  f r = f New ->
  Validated r ->
  errors r = [] ->
  maxDelay r = 0 ->
  maxAttemptTimes r = Z.of_nat N ->
  exists w',
    Try r sched w
    = Some (Return (Some (Multi (repeat ErrNoFunctionSpecified N))), w')
    /\ calls w' = (calls w + N)%nat
    /\ List.length (sleeps w') = (List.length (sleeps w) + N)%nat.
Proof.
  intros Hf Hv He Hd HN.
  rewrite Try_unbounded by (assumption || lia).
  unfold tryWithoutTimeout. rewrite HN, Nat2Z.id.
  destruct (tryLoop_all_fail r (fun _ => ErrNoFunctionSpecified) Hv) with
    (n := N) (l := @nil err) (w := w) as (w' & Ht & Hc & Hs).
  { intros k. unfold invoke. now rewrite Hf. }
  exists w'. rewrite Ht. cbn [app].
  assert (HN1 : (1 <= N)%nat) by (destruct Hv; lia).
  clear - Ht Hc Hs HN1.
  split; [|split; assumption].
  replace (map (fun _ : nat => ErrNoFunctionSpecified) (seq (calls w) N))
    with (repeat ErrNoFunctionSpecified N).
  - destruct N; [lia|]. reflexivity.
  - generalize (calls w). clear. induction N as [|N IH]; intros c; cbn;
      [reflexivity|]. f_equal. apply IH.
Qed.

(** [New().Try()], the case of the package's test. *)
Lemma C2_witness :
  (f New = f New /\ Validated New /\ errors New = [] /\ maxDelay New = 0
   /\ maxAttemptTimes New = Z.of_nat 1)
  /\ exists w',
       Try (P := simplePlatform) New [] world0
       = Some (Return (Some (Multi (repeat ErrNoFunctionSpecified 1))), w')
       /\ calls w' = (calls world0 + 1)%nat
       /\ List.length (sleeps w') = (List.length (sleeps world0) + 1)%nat.
Proof.
  split.
  - repeat split; try reflexivity; apply New_validated.
  - exact (C2_placeholder_runs_as_operation (P := simplePlatform)
             New 1 [] world0 eq_refl New_validated eq_refl eq_refl eq_refl).
Defined.

(** ** Backoff *)

(** C3. What [wait] passes to [sleep]:
    - with [waitFixed > 0], the fixed wait, whatever the random bounds are,
      and no number is drawn;
    - otherwise, with [waitRandomMax > waitRandomMin] (the fields being
      durations whose difference does not overflow, which holds for every
      pair of non-negative bounds), [waitRandomMin] plus the next number of
      the random source for the bound [waitRandomMax - waitRandomMin], a
      number of [[0, waitRandomMax - waitRandomMin)]; every call takes a
      draw of its own (the source advances by one);
    - otherwise nothing is drawn and the time slept is zero. *)
Theorem C3_wait_delay {P : Platform} (r : Retryable) (w : World) :
  (0 < waitFixed r ->
     wait r w
     = (Return tt, {| calls := calls w;
                      sleeps := sleeps w ++ [waitFixed r];
                      draws := draws w |}))
  /\ (waitFixed r <= 0 -> waitRandomMin r < waitRandomMax r ->
      int64 (waitRandomMin r) -> int64 (waitRandomMax r) ->
      waitRandomMax r - waitRandomMin r < 2 ^ 63 ->
      let d := Int63n (draws w) (waitRandomMax r - waitRandomMin r) in
      0 <= d < waitRandomMax r - waitRandomMin r
      /\ wait r w
         = (Return tt, {| calls := calls w;
                          sleeps := sleeps w ++ [waitRandomMin r + d];
                          draws := S (draws w) |}))
  /\ (waitFixed r <= 0 -> waitRandomMax r <= waitRandomMin r ->
      exists d,
        wait r w
        = (Return tt, {| calls := calls w;
                         sleeps := sleeps w ++ [d];
                         draws := draws w |})
        /\ pause d = 0).
Proof.
  unfold wait. repeat split.
  - intros H. replace (waitFixed r <=? 0) with false
      by (symmetry; apply Z.leb_gt; lia).
    reflexivity.
  - apply Int63n_range. lia.
  - apply Int63n_range. lia.
  - replace (waitFixed r <=? 0) with true by (symmetry; apply Z.leb_le; lia).
    replace (waitRandomMax r >? waitRandomMin r) with true
      by (symmetry; apply Z.gtb_lt; lia).
    cbn [andb]. unfold bind, randInt63n.
    rewrite wrap64_id by (unfold int64 in *; lia).
    replace (waitRandomMax r - waitRandomMin r <=? 0) with false
      by (symmetry; apply Z.leb_gt; lia).
    unfold sleep. cbn [calls sleeps draws].
    rewrite wrap64_id; [reflexivity|].
    pose proof (Int63n_range (draws w)
                  (waitRandomMax r - waitRandomMin r) ltac:(lia)).
    unfold int64 in *. lia.
  - intros Hf Hle. exists (waitFixed r).
    replace (waitRandomMax r >? waitRandomMin r) with false
      by (symmetry; rewrite Z.gtb_ltb; apply Z.ltb_ge; lia).
    rewrite andb_false_r. split; [reflexivity|].
    unfold pause. lia.
Qed.

(** [WaitFixed(1000)] with [WaitRandom(1000, 3000)] also set sleeps 1000;
    [WaitRandom(1000, 3000)] alone sleeps 1000 plus the draw; with nothing
    set the sleep is zero. *)
Lemma C3_witness :
  (0 < waitFixed (WaitRandom (WaitFixed New 1000) 1000 3000)
   /\ wait (P := simplePlatform)
        (WaitRandom (WaitFixed New 1000) 1000 3000) world0
      = (Return tt, {| calls := 0; sleeps := [1000]; draws := 0 |}))
  /\ (0 <= 7 < 2000
      /\ wait (P := simplePlatform) (WaitRandom New 1000 3000)
           {| calls := 0; sleeps := []; draws := 7 |}
         = (Return tt, {| calls := 0; sleeps := [1007]; draws := 8 |}))
  /\ (exists d,
        wait (P := simplePlatform) New world0
        = (Return tt, {| calls := 0; sleeps := [d]; draws := 0 |})
        /\ pause d = 0).
Proof.
  split; [|split].
  - split; [reflexivity|].
    exact (proj1 (C3_wait_delay (P := simplePlatform)
                    (WaitRandom (WaitFixed New 1000) 1000 3000) world0)
             eq_refl).
  - refine (proj1 (proj2 (C3_wait_delay (P := simplePlatform)
                            (WaitRandom New 1000 3000)
                            {| calls := 0; sleeps := []; draws := 7 |}))
              _ _ _ _ _); cbn; unfold int64; lia.
  - refine (proj2 (proj2 (C3_wait_delay (P := simplePlatform) New world0))
              _ _); cbn; lia.
Defined.

(** ** The wrapper and the sequential engine *)

(** C4. With a non-negative buffer size, an invocation of the wrapped
    operation always returns: the panic of the raw operation does not pass
    the wrapper.  A normal return of the raw operation is passed on
    unchanged.  A panic becomes a non-nil failure whose text is the payload,
    a newline, the buffer and a newline, where the buffer has exactly
    [stackSize] bytes: the trace cut at [stackSize] bytes, then zero bytes.
    In the loop of [tryWithoutTimeout] that failure is appended to the
    report, [wait] runs and the remaining attempts follow, as for a failure
    the operation returned. *)
Theorem C4_wrapper_intercepts_panics {P : Platform}
  (g : nat -> outcome (option err)) (n : Z) (all : bool) (k : nat) :
  0 <= n ->
  (exists e, wrapRecoverFunc g n all k = Return e)
  /\ (forall e, g k = Return e -> wrapRecoverFunc g n all k = Return e)
  /\ (forall p, g k = Panic p ->
        let buf := fill (Z.to_nat n) (runtimeStack k all) in
        wrapRecoverFunc g n all k
        = Return (Some (Errorf (p ++ nl ++ buf ++ nl)))
        /\ String.length buf = Z.to_nat n
        /\ buf = (substring 0 (Z.to_nat n) (runtimeStack k all)
                  ++ zeros (Z.to_nat n
                            - String.length
                                (substring 0 (Z.to_nat n)
                                   (runtimeStack k all))))%string)
  /\ (forall r m l w p,
        f r = wrapRecoverFunc g -> stackSize r = n -> allGoroutines r = all ->
        calls w = k -> g k = Panic p ->
        tryLoop r (S m) l w
        = (wait r ;;;
           tryLoop r m
             (l ++ [Errorf (p ++ nl
                            ++ fill (Z.to_nat n) (runtimeStack k all)
                            ++ nl)]))
            {| calls := S k; sleeps := sleeps w; draws := draws w |}).
Proof.
  intros Hn.
  assert (Hneg : (n <? 0) = false) by (apply Z.ltb_ge; lia).
  assert (Hp : forall p, g k = Panic p ->
            wrapRecoverFunc g n all k
            = Return (Some (Errorf (p ++ nl
                                    ++ fill (Z.to_nat n) (runtimeStack k all)
                                    ++ nl)))).
  { intros p Hg. unfold wrapRecoverFunc. now rewrite Hg, Hneg. }
  split; [|split; [|split]].
  - unfold wrapRecoverFunc. destruct (g k) as [e|p].
    + now exists e.
    + rewrite Hneg. eexists. reflexivity.
  - intros e Hg. unfold wrapRecoverFunc. now rewrite Hg.
  - intros p Hg buf. split; [now apply Hp|]. split.
    + apply length_fill.
    + apply fill_spec.
  - intros r m l w p Hf Hs Ha Hk Hg. subst k.
    rewrite (tryLoop_failure r m l w
               (Errorf (p ++ nl
                        ++ fill (Z.to_nat n) (runtimeStack (calls w) all)
                        ++ nl))); [reflexivity|].
    unfold invoke. rewrite Hf, Hs, Ha. now apply Hp.
Qed.

(** C6. On a validated configuration with no recorded error and no
    deadline, [maxAttemptTimes = N >= 1] and an operation whose every
    invocation fails, [Try] returns the composite whose components are the
    failures of the [N] attempts in attempt order, exactly [N] of them, and
    the operation has been invoked exactly [N] times. *)
Theorem C6_exhausted_reports_all_failures {P : Platform}
  (r : Retryable) (N : nat) (fails : nat -> err)
  (sched : list Event) (w : World) :
  Validated r ->
  errors r = [] ->
  maxDelay r = 0 ->
  maxAttemptTimes r = Z.of_nat N ->
  (1 <= N)%nat ->
  (forall k, invoke r k = Return (Some (fails k))) ->
  exists w',
    Try r sched w
    = Some (Return (Some (Multi (map fails (seq (calls w) N)))), w')
    /\ List.length (map fails (seq (calls w) N)) = N
    /\ calls w' = (calls w + N)%nat.
Proof.
  intros Hv He Hd HN H1 Hf.
  rewrite Try_unbounded by (assumption || lia).
  unfold tryWithoutTimeout. rewrite HN, Nat2Z.id.
  destruct (tryLoop_all_fail r fails Hv Hf N [] w) as (w' & Ht & Hc & _).
  exists w'. rewrite Ht. cbn [app]. split; [|split].
  - destruct N as [|N]; [lia|]. reflexivity.
  - now rewrite length_map, length_seq.
  - exact Hc.
Qed.

(** C7. On a validated configuration with no recorded error and no
    deadline, if the first [k - 1] invocations fail and the [k]-th returns
    nil, with [1 <= k <= maxAttemptTimes], then [Try] returns nil; the
    operation has been invoked exactly [k] times (and [wait] has run
    [k - 1] times), and the earlier failures are not in the result. *)
Theorem C7_first_success_stops {P : Platform}
  (r : Retryable) (k : nat) (sched : list Event) (w : World) :
  Validated r ->
  errors r = [] ->
  maxDelay r = 0 ->
  (1 <= k)%nat ->
  Z.of_nat k <= maxAttemptTimes r ->
  (forall i, (i < k - 1)%nat ->
             exists e, invoke r (calls w + i) = Return (Some e)) ->
  invoke r (calls w + (k - 1)) = Return None ->
  exists w',
    Try r sched w = Some (Return None, w')
    /\ calls w' = (calls w + k)%nat
    /\ List.length (sleeps w') = (List.length (sleeps w) + (k - 1))%nat.
Proof.
  intros Hv He Hd H1 Hk Hfail Hok.
  rewrite Try_unbounded by (assumption || lia).
  unfold tryWithoutTimeout.
  destruct (tryLoop_first_success r Hv (k - 1)
              (Z.to_nat (maxAttemptTimes r)) [] w) as (w' & Ht & Hc & Hs);
    [lia|assumption|assumption|].
  exists w'. rewrite Ht. split; [reflexivity|]. split; lia.
Qed.

(** The first invocation of the test's panicking function behind the
    wrapper, with a buffer of 8 bytes. *)
Lemma C4_witness :
  0 <= 8
  /\ wrapRecoverFunc (P := simplePlatform)
       (callNoOutput funcNoOutput
          (fun k => if (k =? 2)%nat then Return [] else Panic "panic here"))
       8 false 0%nat
     = Return (Some (Errorf ("panic here" ++ nl ++ "goroutin" ++ nl))).
Proof.
  split; [lia|].
  exact (proj1 (proj1 (proj2 (proj2
           (C4_wrapper_intercepts_panics (P := simplePlatform)
              (callNoOutput funcNoOutput
                 (fun k => if (k =? 2)%nat then Return []
                           else Panic "panic here"))
              8 false 0%nat ltac:(lia))))
           "panic here"%string eq_refl)).
Defined.

(** [New().MaxAttemptTimes(3).Stack(8, false).Function(func() {
    panic("DLLM") }).Try()]: three recovered panics, in order. *)
Lemma C6_witness :
  let r := bound (P := simplePlatform)
             (Stack (MaxAttemptTimes New 3) 8 false) alwaysPanics in
  let fails := fun _ : nat => Errorf ("DLLM" ++ nl ++ "goroutin" ++ nl) in
  (Validated r /\ errors r = [] /\ maxDelay r = 0
   /\ maxAttemptTimes r = Z.of_nat 3 /\ (1 <= 3)%nat
   /\ (forall k, invoke r k = Return (Some (fails k))))
  /\ exists w',
       Try (P := simplePlatform) r [] world0
       = Some (Return (Some (Multi (map fails (seq (calls world0) 3)))), w')
       /\ List.length (map fails (seq (calls world0) 3)) = 3%nat
       /\ calls w' = (calls world0 + 3)%nat.
Proof.
  intros r fails.
  assert (Hv : Validated r)
    by (constructor; cbn; unfold defaultStackSize; lia).
  split.
  - split; [exact Hv|]. repeat split. lia.
  - exact (C6_exhausted_reports_all_failures (P := simplePlatform)
             r 3 fails [] world0 Hv eq_refl eq_refl eq_refl
             ltac:(lia) (fun k => eq_refl)).
Defined.

(** The two retried runs of the package's tests: two panics, then a normal
    return, with five attempts allowed. *)
Lemma C7_witness :
  let r := bound (P := simplePlatform) (MaxAttemptTimes New 5) panicsTwice in
  (Validated r /\ errors r = [] /\ maxDelay r = 0 /\ (1 <= 3)%nat
   /\ Z.of_nat 3 <= maxAttemptTimes r
   /\ (forall i, (i < 3 - 1)%nat ->
                 exists e, invoke r (calls world0 + i) = Return (Some e))
   /\ invoke r (calls world0 + (3 - 1)) = Return None)
  /\ exists w',
       Try (P := simplePlatform) r [] world0 = Some (Return None, w')
       /\ calls w' = (calls world0 + 3)%nat
       /\ List.length (sleeps w')
          = (List.length (sleeps world0) + (3 - 1))%nat.
Proof.
  intros r.
  assert (Hv : Validated r)
    by (constructor; cbn; unfold defaultStackSize; lia).
  assert (Hfail : forall i, (i < 3 - 1)%nat ->
            exists e, invoke r (calls world0 + i) = Return (Some e)).
  { intros i Hi. destruct i as [|[|i]]; [eexists; reflexivity ..|lia]. }
  split.
  - split; [exact Hv|]. split; [reflexivity|]. split; [reflexivity|].
    split; [lia|]. split; [cbn; lia|]. split; [exact Hfail|reflexivity].
  - exact (C7_first_success_stops (P := simplePlatform)
             r 3 [] world0 Hv eq_refl eq_refl ltac:(lia) ltac:(cbn; lia)
             Hfail eq_refl).
Defined.

(** ** Bounded-time mode *)

Ltac race_simpl :=
  repeat progress
    (cbn [run]; cbn [exec];
     cbn [finished step produce deliver coordinate timerFires selectTimer
          setProducer setCoordinator
          count producer coordinator errs fired world]).

Section Race.

Context {P : Platform}.

Lemma run_exec (r : Retryable) (pre post : list Event) (s s' : Race) :
  exec r pre s = Some s' -> run r (pre ++ post) s = run r post s'.
Proof.
  revert s. induction pre as [|ev pre IH]; intros s; cbn [exec app].
  - intros H. now inversion H.
  - destruct (finished s) eqn:Ef; [discriminate|].
    destruct (step r ev s) as [s1|] eqn:Es; [|discriminate].
    intros H. cbn [run]. rewrite Ef, Es. now apply IH.
Qed.

Lemma exec_app (r : Retryable) (pre post : list Event) (s s' : Race) :
  exec r pre s = Some s' -> exec r (pre ++ post) s = exec r post s'.
Proof.
  revert s. induction pre as [|ev pre IH]; intros s; cbn [exec app].
  - intros H. now inversion H.
  - destruct (finished s) eqn:Ef; [discriminate|].
    destruct (step r ev s) as [s1|] eqn:Es; [|discriminate].
    now apply IH.
Qed.

(** One attempt that fails, the coordinator testing [count] before the
    producer decrements it: the failure is appended and the coordinator is
    back in [select] whatever the value of [count - 1]. *)
Lemma exec_checkFirst (r : Retryable) (c : Z) (l : list err) (b : bool)
  (w : World) (e : err) :
  Validated r -> 0 < c ->
  invoke r (calls w) = Return (Some e) ->
  exists w',
    exec r checkFirst
      {| count := c; producer := PLoop; coordinator := CSelect;
         errs := l; fired := b; world := w |}
    = Some {| count := c - 1; producer := PLoop; coordinator := CSelect;
              errs := l ++ [e]; fired := b; world := w' |}
    /\ calls w' = S (calls w)
    /\ List.length (sleeps w') = S (List.length (sleeps w)).
Proof.
  intros Hv Hc He.
  set (w1 := {| calls := S (calls w); sleeps := sleeps w; draws := draws w |}).
  destruct (wait_returns r w1 Hv) as (w2 & Hw & Hc2 & Hs2).
  exists w2. split; [|split; assumption].
  assert (Hgt : (c >? 0) = true) by (apply Z.gtb_lt; lia).
  assert (Hle : (c <=? 0) = false) by (apply Z.leb_gt; lia).
  unfold checkFirst.
  race_simpl.
  rewrite Hgt.
  race_simpl.
  rewrite callF_invoke, He.
  race_simpl.
  rewrite Hle.
  race_simpl.
  fold w1. rewrite Hw.
  race_simpl.
  reflexivity.
Qed.

Lemma exec_rounds (r : Retryable) (fails : nat -> err) :
  Validated r ->
  (forall k, invoke r k = Return (Some (fails k))) ->
  forall (n : nat) (c : Z) (l : list err) (b : bool) (w : World),
  0 <= c ->
  exists w',
    exec r (rounds n)
      {| count := Z.of_nat n + c; producer := PLoop; coordinator := CSelect;
         errs := l; fired := b; world := w |}
    = Some {| count := c; producer := PLoop; coordinator := CSelect;
              errs := l ++ map fails (seq (calls w) n); fired := b;
              world := w' |}
    /\ calls w' = (calls w + n)%nat
    /\ List.length (sleeps w') = (List.length (sleeps w) + n)%nat.
Proof.
  intros Hv Hf. induction n as [|n IH]; intros c l b w Hc.
  - exists w. cbn [rounds exec seq map Z.of_nat]. rewrite app_nil_r.
    replace (0 + c) with c by lia. split; [reflexivity|]. split; lia.
  - destruct (exec_checkFirst r (Z.of_nat (S n) + c) l b w (fails (calls w))
                Hv ltac:(lia) (Hf _)) as (w1 & H1 & Hc1 & Hs1).
    destruct (IH c (l ++ [fails (calls w)]) b w1 Hc) as (w2 & H2 & Hc2 & Hs2).
    exists w2. cbn [rounds]. rewrite (exec_app _ _ _ _ _ H1).
    replace (Z.of_nat (S n) + c - 1) with (Z.of_nat n + c) by lia.
    rewrite H2, Hc1. cbn [seq map]. rewrite <- app_assoc. cbn [app].
    split; [reflexivity|]. split; lia.
Qed.

(** An operation that always fails, every test of [count <= 0] made before
    the producer's [count--]: after the [N] rounds all [N] failures have
    been delivered and appended and the timer has not expired, yet the
    coordinator is back in [select] with nothing left to receive; when the
    deadline elapses it returns [ErrTimeout]. *)
Lemma tryWithTimeout_check_before_decrement (r : Retryable) (N : nat)
  (fails : nat -> err) (w : World) :
  Validated r ->
  maxAttemptTimes r = Z.of_nat N ->
  (forall k, invoke r k = Return (Some (fails k))) ->
  exists s,
    exec r (rounds N) (start r w) = Some s
    /\ errs s = map fails (seq (calls w) N)
    /\ fired s = false
    /\ calls (world s) = (calls w + N)%nat
    /\ tryWithTimeout r (rounds N ++ thenDeadline) w
       = Some (Return (Some (Plain ErrTimeout)), world s).
Proof.
  intros Hv HN Hf.
  destruct (exec_rounds r fails Hv Hf N 0 [] false w ltac:(lia))
    as (w' & He & Hc & _).
  unfold start. rewrite HN. rewrite Z.add_0_r in He.
  eexists. split; [exact He|].
  cbn [errs fired world app]. repeat (split; [reflexivity || assumption|]).
  unfold tryWithTimeout, start. rewrite HN.
  rewrite (run_exec _ _ _ _ _ He). unfold thenDeadline.
  race_simpl. reflexivity.
Qed.

(** The same operation when, in the last round, the producer's [count--]
    comes before the coordinator's test: the composite of all failures. *)
Lemma tryWithTimeout_decrement_before_check (r : Retryable) (N : nat)
  (fails : nat -> err) (w : World) :
  Validated r ->
  maxAttemptTimes r = Z.of_nat (S N) ->
  (forall k, invoke r k = Return (Some (fails k))) ->
  exists w',
    tryWithTimeout r (rounds N ++ decrementFirst) w
    = Some (Return (Some (Multi (map fails (seq (calls w) (S N))))), w')
    /\ calls w' = (calls w + S N)%nat.
Proof.
  intros Hv HN Hf.
  destruct (exec_rounds r fails Hv Hf N 1 [] false w ltac:(lia))
    as (w1 & He & Hc & _).
  replace (Z.of_nat N + 1) with (Z.of_nat (S N)) in He by lia.
  set (w2 := {| calls := S (calls w1); sleeps := sleeps w1; draws := draws w1 |}).
  destruct (wait_returns r w2 Hv) as (w3 & Hw & Hc3 & _).
  exists w3. unfold tryWithTimeout, start. rewrite HN.
  rewrite (run_exec _ _ _ _ _ He). unfold decrementFirst.
  race_simpl. change (1 >? 0) with true.
  race_simpl. rewrite callF_invoke, (Hf (calls w1)).
  race_simpl. fold w2. rewrite Hw.
  race_simpl. cbn [app Append flat_map].
  rewrite seq_S, map_app. cbn [map]. rewrite Hc.
  split.
  - f_equal. f_equal. f_equal.
    destruct (map fails (seq (calls w) N) ++ [fails (calls w + N)%nat]) eqn:E.
    + apply app_eq_nil in E. destruct E; discriminate.
    + reflexivity.
  - rewrite Hc3. cbn. lia.
Qed.

End Race.

(** ** Every bounded-time run of an operation that always fails *)

Section AllFail.

Context {P : Platform}.

Variable r : Retryable.
Variable fails : nat -> err.
Variables c0 N : nat.

Hypothesis r_validated : Validated r.
Hypothesis r_fails : forall k, invoke r k = Return (Some (fails k)).
Hypothesis N_positive : (1 <= N)%nat.

Lemma received_producer (k : nat) (s : Race) (p : Producer) (w : World) :
  received fails c0 N k s -> received fails c0 N k (setProducer s p w).
Proof. exact (fun H => H). Qed.

Lemma allFail_produce (s s' : Race) :
  allFail fails c0 N s -> produce r s = Some s' -> allFail fails c0 N s'.
Proof.
  intros (d & Hd & Hc & Hp). unfold produce.
  destruct (producer s) eqn:Ep; try discriminate.
  - (* the loop condition *)
    destruct Hp as [Hw Hr]. intros H. inversion H; subst; clear H.
    exists d. unfold allFail. cbn [setProducer count producer world].
    split; [assumption|]. split; [assumption|].
    destruct (count s >? 0) eqn:E.
    + apply Z.gtb_lt in E. repeat split; try assumption. lia.
    + rewrite Z.gtb_ltb in E. apply Z.ltb_ge in E.
      assert (d = N) by lia. subst d. split; [reflexivity|assumption].
  - (* r.f() *)
    destruct Hp as (Hlt & Hw & Hr). rewrite callF_invoke, r_fails.
    intros H. inversion H; subst; clear H.
    exists d. cbn [setProducer count producer world calls].
    repeat split; try assumption; [lia|now rewrite Hw].
  - (* r.wait() *)
    destruct Hp as (Hlt & Hw & Hr).
    destruct (wait_returns r (world s) r_validated) as (w' & Hwt & Hcw & _).
    rewrite Hwt. intros H. inversion H; subst; clear H.
    exists d. cbn [setProducer count producer world].
    repeat split; try assumption. now rewrite Hcw.
  - (* count-- *)
    destruct Hp as (Hlt & Hw & Hr).
    intros H. inversion H; subst; clear H.
    exists (S d). cbn [count producer world].
    split; [lia|]. split; [lia|]. split; [now rewrite Hw|exact Hr].
Qed.

Lemma allFail_deliver (s s' : Race) :
  allFail fails c0 N s -> deliver s = Some s' -> allFail fails c0 N s'.
Proof.
  intros (d & Hd & Hc & Hp). unfold deliver.
  destruct (producer s) eqn:Ep; try discriminate.
  destruct (coordinator s) eqn:Ec; try discriminate.
  destruct Hp as (Hlt & Hw & He & Hr). unfold received in Hr. rewrite Ec in Hr.
  intros H. inversion H; subst; clear H.
  exists d. cbn [count producer world].
  repeat split; try assumption.
  unfold received. cbn [coordinator errs]. exists d. now repeat split.
Qed.

Lemma allFail_coordinate (s s' : Race) :
  allFail fails c0 N s -> coordinate s = Some s' -> allFail fails c0 N s'.
Proof.
  intros (d & Hd & Hc & Hp). unfold coordinate.
  destruct (coordinator s) eqn:Ec; try discriminate.
  - (* append and the nil test *)
    assert (Hk : forall k, received fails c0 N k s ->
              exists e0, e = Some e0
                /\ Append (errs s) [e] = map fails (seq c0 k)).
    { intros k Hr. unfold received in Hr. rewrite Ec in Hr.
      destruct Hr as (k' & -> & -> & Hl). eexists. split; [reflexivity|].
      rewrite Append_one, Hl, seq_S, map_app. reflexivity. }
    assert (Hs : forall k, received fails c0 N k s ->
              s' = setCoordinator s CCheck (Append (errs s) [e]) ->
              received fails c0 N k s').
    { intros k Hr ->. destruct (Hk k Hr) as (e0 & _ & Hl).
      unfold received. cbn [setCoordinator coordinator errs]. exact Hl. }
    intros H.
    assert (Hs' : s' = setCoordinator s CCheck (Append (errs s) [e])).
    { destruct (producer s); cbv iota in Hp;
        repeat match goal with H : _ /\ _ |- _ => destruct H end;
        try contradiction;
        match goal with
        | Hr : received _ _ _ _ _ |- _ =>
            destruct (Hk _ Hr) as (? & Hee & _);
            rewrite Hee in H |- *; now inversion H
        end. }
    clear H. subst s'. exists d.
    cbn [setCoordinator count producer world].
    split; [assumption|]. split; [assumption|].
    destruct (producer s); cbv iota in Hp |- *;
      repeat match goal with H : _ /\ _ |- _ => destruct H end;
      repeat split; try assumption; try contradiction;
      (apply Hs; [assumption|reflexivity]).
  - (* the test of count *)
    destruct (count s <=? 0) eqn:E; intros H; inversion H; subst; clear H.
    + apply Z.leb_le in E. assert (d = N) by lia. subst d.
      exists N. cbn [setCoordinator count producer world].
      split; [lia|]. split; [assumption|].
      assert (Hall : forall k, k = N -> received fails c0 N k s ->
                received fails c0 N k
                  (setCoordinator s (CReturned (ErrorOrNil (errs s))) (errs s))).
      { intros k -> Hr. unfold received in Hr |- *. rewrite Ec in Hr.
        cbn [setCoordinator coordinator]. right. rewrite Hr.
        destruct N; [lia|]. reflexivity. }
      destruct (producer s); cbv iota in Hp |- *;
        repeat match goal with H : _ /\ _ |- _ => destruct H end;
        try contradiction; try lia;
        repeat split; try assumption; now apply Hall.
    + exists d. cbn [setCoordinator count producer world].
      split; [assumption|]. split; [assumption|].
      assert (Hsel : forall k, received fails c0 N k s ->
                received fails c0 N k (setCoordinator s CSelect (errs s))).
      { intros k Hr. unfold received in Hr |- *. rewrite Ec in Hr.
        exact Hr. }
      destruct (producer s); cbv iota in Hp |- *;
        repeat match goal with H : _ /\ _ |- _ => destruct H end;
        try contradiction; repeat split; try assumption; now apply Hsel.
Qed.

Lemma allFail_timerFires (s s' : Race) :
  allFail fails c0 N s -> timerFires s = Some s' -> allFail fails c0 N s'.
Proof.
  unfold timerFires. destruct (fired s); [discriminate|].
  intros H E. inversion E; subst; clear E. exact H.
Qed.

Lemma allFail_selectTimer (s s' : Race) :
  allFail fails c0 N s -> selectTimer s = Some s' -> allFail fails c0 N s'.
Proof.
  intros (d & Hd & Hc & Hp). unfold selectTimer.
  destruct (coordinator s) eqn:Ec; try discriminate.
  destruct (fired s); [|discriminate].
  intros H. inversion H; subst; clear H.
  exists d. cbn [setCoordinator count producer world].
  split; [assumption|]. split; [assumption|].
  assert (Hr : forall k,
            received fails c0 N k
              (setCoordinator s (CReturned (Some (Plain ErrTimeout))) (errs s))).
  { intros k. unfold received. cbn [setCoordinator coordinator]. now left. }
  destruct (producer s); cbv iota in Hp |- *;
    repeat match goal with H : _ /\ _ |- _ => destruct H end;
    try contradiction; repeat split; try assumption; apply Hr.
Qed.

Lemma allFail_step (ev : Event) (s s' : Race) :
  allFail fails c0 N s -> step r ev s = Some s' -> allFail fails c0 N s'.
Proof.
  destruct ev; cbn [step].
  - apply allFail_produce.
  - apply allFail_deliver.
  - apply allFail_coordinate.
  - apply allFail_timerFires.
  - apply allFail_selectTimer.
Qed.

Lemma allFail_finished (s : Race) (o : outcome (option error)) :
  allFail fails c0 N s -> finished s = Some o ->
  o = Return (Some (Plain ErrTimeout))
  \/ o = Return (Some (Multi (map fails (seq c0 N)))).
Proof.
  intros (d & Hd & Hc & Hp). unfold finished.
  destruct (coordinator s) eqn:Ec.
  1-3: destruct (producer s); try discriminate; contradiction.
  intros H. inversion H; subst; clear H.
  assert (Hr : forall k, received fails c0 N k s ->
            Return res = Return (Some (Plain ErrTimeout))
            \/ Return res = Return (Some (Multi (map fails (seq c0 N))))).
  { intros k Hr. unfold received in Hr. rewrite Ec in Hr.
    destruct Hr as [-> | ->]; [now left|now right]. }
  destruct (producer s); cbv iota in Hp;
    repeat match goal with H : _ /\ _ |- _ => destruct H end;
    try contradiction; eapply Hr; eassumption.
Qed.

Lemma allFail_run (sched : list Event) (s : Race)
  (o : outcome (option error)) (w' : World) :
  allFail fails c0 N s -> run r sched s = Some (o, w') ->
  o = Return (Some (Plain ErrTimeout))
  \/ o = Return (Some (Multi (map fails (seq c0 N)))).
Proof.
  revert s. induction sched as [|ev sched IH]; intros s Hs; cbn [run].
  - destruct (finished s) as [o'|] eqn:Ef; [|discriminate].
    intros H. inversion H; subst. eapply allFail_finished; eassumption.
  - destruct (finished s) as [o'|] eqn:Ef.
    + intros H. inversion H; subst. eapply allFail_finished; eassumption.
    + destruct (step r ev s) as [s1|] eqn:Es; [|discriminate].
      apply IH. eapply allFail_step; eassumption.
Qed.

End AllFail.

(** In bounded-time mode the report of an operation that always fails is
    never partial and never nil: a run returns [ErrTimeout] or the
    composite of all [maxAttemptTimes] failures, and which of the two
    depends on the schedule. *)
Lemma tryWithTimeout_all_fail {P : Platform} (r : Retryable) (N : nat)
  (fails : nat -> err) (sched : list Event) (w w' : World)
  (o : outcome (option error)) :
  Validated r ->
  maxAttemptTimes r = Z.of_nat N ->
  (forall k, invoke r k = Return (Some (fails k))) ->
  tryWithTimeout r sched w = Some (o, w') ->
  o = Return (Some (Plain ErrTimeout))
  \/ o = Return (Some (Multi (map fails (seq (calls w) N)))).
Proof.
  intros Hv HN Hf. unfold tryWithTimeout.
  apply (allFail_run r fails (calls w) N Hv Hf).
  - destruct Hv. lia.
  - exists 0%nat. unfold start. cbn [count producer world].
    split; [lia|]. split; [rewrite HN; f_equal; lia|].
    split; [lia|]. reflexivity.
Qed.

(** ** The deadline *)

(** C8. In bounded-time mode, take any run in which no result has been
    returned yet, the deadline has elapsed and the coordinator, waiting in
    [select], takes the timer case: [Try] returns [ErrTimeout].  The
    failures accumulated so far ([errs] of the state, whatever they are)
    are not part of the result, and [ErrTimeout] is different from every
    composite report.  As long as the producer has no result to hand over,
    the timer case is the only move the coordinator has. *)
Theorem C8_deadline_returns_ErrTimeout {P : Platform}
  (r : Retryable) (pre post : list Event) (w : World) (s : Race) :
  errors r = [] ->
  0 < maxDelay r ->
  exec r pre (start r w) = Some s ->
  finished s = None ->
  coordinator s = CSelect ->
  fired s = true ->
  Try r (pre ++ SelectTimer :: post) w
  = Some (Return (Some (Plain ErrTimeout)), world s)
  /\ (forall l, Plain ErrTimeout <> Multi l)
  /\ ((forall e, producer s <> PSend e) ->
      step r Deliver s = None /\ step r Coordinate s = None).
Proof.
  intros He Hd Hx Hf Hc Ht. split; [|split; [discriminate|]].
  - rewrite Try_bounded by assumption.
    unfold tryWithTimeout. rewrite (run_exec _ _ _ _ _ Hx).
    cbn [run]. rewrite Hf. cbn [step]. unfold selectTimer. rewrite Hc, Ht.
    destruct post; reflexivity.
  - intros Hp. cbn [step]. unfold deliver, coordinate. rewrite Hc.
    split; [|reflexivity].
    destruct (producer s) as [| |e| | | |p]; try reflexivity.
    now destruct (Hp e).
Qed.

(** One failed attempt is in the report, the second attempt is under way,
    the deadline elapses: the result is [ErrTimeout] alone. *)
Lemma C8_witness :
  let r := MaxDelay (bound (P := simplePlatform)
                       (MaxAttemptTimes New 2) alwaysFails) 60000000000 in
  let pre := checkFirst ++ [Produce; Produce; TimerFires] in
  let s := {| count := 1; producer := PSend (Some (Errorf "dllm"));
              coordinator := CSelect; errs := [Errorf "dllm"]; fired := true;
              world := {| calls := 2; sleeps := [0]; draws := 0 |} |} in
  (errors r = [] /\ 0 < maxDelay r
   /\ exec (P := simplePlatform) r pre (start r world0) = Some s
   /\ finished s = None /\ coordinator s = CSelect /\ fired s = true)
  /\ Try (P := simplePlatform) r (pre ++ [SelectTimer]) world0
     = Some (Return (Some (Plain ErrTimeout)), world s).
Proof.
  intros r pre s.
  split.
  - repeat split.
  - exact (proj1 (C8_deadline_returns_ErrTimeout (P := simplePlatform)
                    r pre [] world0 s eq_refl eq_refl eq_refl eq_refl eq_refl
                    eq_refl)).
Defined.

(** C1 does not hold of [tryWithTimeout].  The run below is
    [New().MaxAttemptTimes(2).Function(alwaysFails).WaitFixed(time.Second)
    .MaxDelay(time.Minute).Try()] where, as happens when [wait] sleeps, the
    coordinator tests [count <= 0] before the producer has decremented
    [count].  After the two rounds both failures have been delivered and
    appended, the timer has not expired and [count] is 0; but the test that
    followed the second delivery read [count = 1], so the coordinator is
    back in [select], nothing more is sent, and when the deadline elapses
    [Try] returns [ErrTimeout], not the report of the two failures. *)
Theorem C1_exhausted_before_deadline_times_out :
  let r := MaxDelay (WaitFixed (bound (P := simplePlatform)
                                  (MaxAttemptTimes New 2) alwaysFails)
                       1000000000) 60000000000 in
  errors r = []
  /\ exec (P := simplePlatform) r (rounds 2) (start r world0)
     = Some {| count := 0; producer := PLoop; coordinator := CSelect;
               errs := [Errorf "dllm"; Errorf "dllm"]; fired := false;
               world := {| calls := 2; sleeps := [1000000000; 1000000000];
                           draws := 0 |} |}
  /\ Try (P := simplePlatform) r (rounds 2 ++ thenDeadline) world0
     = Some (Return (Some (Plain ErrTimeout)),
             {| calls := 2; sleeps := [1000000000; 1000000000]; draws := 0 |})
  /\ Try (P := simplePlatform) r (rounds 2 ++ thenDeadline) world0
     <> Some (Return (Some (Multi [Errorf "dllm"; Errorf "dllm"])),
              {| calls := 2; sleeps := [1000000000; 1000000000]; draws := 0 |}).
Proof.
  intros r. split; [reflexivity|]. split; [reflexivity|].
  split; [reflexivity|]. vm_compute. discriminate.
Qed.

(** * Further properties of the package *)

(** ** The builder *)

Section BuilderMore.

Context {P : Platform}.

Lemma call_policy (r r' : Retryable) (c : Call) :
  (errors r = [] -> policy r) ->
  call r c = Return r' ->
  errors r' = [] -> policy r'.
Proof.
  intros Hr Hc He.
  destruct (call_errors _ _ _ Hc) as [l Hl].
  assert (Hnil : errors r = []).
  { rewrite Hl in He. now apply app_eq_nil in He. }
  specialize (Hr Hnil). destruct Hr as (h1 & h2 & h3 & h4 & h5).
  unfold policy.
  destruct c; cbn [call] in Hc.
  1-5: inversion Hc; subst; clear Hc.
  - rewrite Stack_errors, Hnil in He. cbn [app] in He.
    destruct (n <=? 0) eqn:E; [discriminate|].
    unfold Stack, recordIf. rewrite E. apply Z.leb_gt in E.
    cbn. repeat split; try assumption; lia.
  - rewrite MaxAttemptTimes_errors, Hnil in He. cbn [app] in He.
    destruct (n <=? 0) eqn:E; [discriminate|].
    unfold MaxAttemptTimes, recordIf. rewrite E. apply Z.leb_gt in E.
    cbn. repeat split; try assumption; lia.
  - rewrite MaxDelay_errors, Hnil in He. cbn [app] in He.
    destruct (d <=? 0) eqn:E; [discriminate|].
    unfold MaxDelay, recordIf. rewrite E. apply Z.leb_gt in E.
    cbn. repeat split; try assumption; lia.
  - rewrite WaitFixed_errors, Hnil in He. cbn [app] in He.
    destruct (d <=? 0) eqn:E; [discriminate|].
    unfold WaitFixed, recordIf. rewrite E. apply Z.leb_gt in E.
    cbn. repeat split; try assumption; lia.
  - rewrite WaitRandom_errors, Hnil in He. cbn [app] in He.
    destruct ((min <? 0) || (max <? 0)) eqn:E1; [discriminate|].
    destruct (min >=? max) eqn:E2; [discriminate|].
    unfold WaitRandom, recordIf. rewrite E1, E2.
    apply orb_false_iff in E1. destruct E1 as [E1 E3].
    apply Z.ltb_ge in E1. apply Z.ltb_ge in E3.
    rewrite Z.geb_leb in E2. apply Z.leb_gt in E2.
    cbn. repeat split; try assumption. right. lia.
  - destruct i as [|typ body]; cbn [Function] in Hc; [discriminate|].
    destruct (negb (isFunc (typeKind typ))) eqn:E.
    + inversion Hc; subst. cbn in He. now destruct (errors r).
    + inversion Hc; subst; clear Hc. unfold recordIf.
      destruct (negb (NumIn typ =? 0)%nat);
        destruct ((0 <? NumOut typ)%nat && negb (lastOutImplementsError typ));
        cbn; repeat split; assumption.
Qed.

Lemma chain_policy (cs : list Call) (r0 r : Retryable) :
  (errors r0 = [] -> policy r0) ->
  chain r0 cs = Return r -> errors r = [] -> policy r.
Proof.
  revert r0. induction cs as [|c cs IH]; intros r0 H0; cbn [chain].
  - intros H. inversion H; subst. exact H0.
  - destruct (call r0 c) as [r1|p] eqn:E; [|discriminate].
    apply IH. intros H1. eapply call_policy; eassumption.
Qed.

End BuilderMore.

(** X1. Whatever chain of builder calls is applied to [New], if no error
    has been recorded then every option holds its default or a value that
    passed its test: the stack size and the attempt count are positive, the
    deadline and the fixed wait are zero (unset) or positive, and the random
    bounds are both zero (unset) or satisfy [0 <= min < max]. *)
Theorem X1_no_error_means_valid_policy {P : Platform}
  (cs : list Call) (r : Retryable) :
  chain New cs = Return r ->
  errors r = [] ->
  0 < stackSize r
  /\ 0 < maxAttemptTimes r
  /\ 0 <= maxDelay r
  /\ 0 <= waitFixed r
  /\ (waitRandomMin r = 0 /\ waitRandomMax r = 0
      \/ 0 <= waitRandomMin r < waitRandomMax r).
Proof.
  intros Hc He. apply (chain_policy cs New r); try assumption.
  intros _. unfold policy, New, defaultStackSize, defaultMaxAttemptTimes.
  cbn. repeat split; lia.
Qed.

(** The configuration of the README. *)
Lemma X1_witness :
  (exists r, chain (P := simplePlatform) New readme = Return r
             /\ errors r = []
             /\ 0 < stackSize r
             /\ 0 < maxAttemptTimes r
             /\ 0 <= maxDelay r
             /\ 0 <= waitFixed r
             /\ (waitRandomMin r = 0 /\ waitRandomMax r = 0
                 \/ 0 <= waitRandomMin r < waitRandomMax r)).
Proof.
  eexists. split; [reflexivity|]. split; [reflexivity|].
  exact (X1_no_error_means_valid_policy (P := simplePlatform)
           readme _ eq_refl eq_refl).
Defined.

Section Accumulation.

Context {P : Platform}.

(** What one call appends does not depend on the receiver. *)
Lemma call_errors_same (r r' a a' : Retryable) (c : Call) :
  call r c = Return r' -> call a c = Return a' ->
  exists l, errors r' = errors r ++ l /\ errors a' = errors a ++ l.
Proof.
  destruct c; cbn [call]; intros H1 H2.
  1-5: inversion H1; inversion H2; subst; clear H1 H2.
  - rewrite !Stack_errors. eexists; split; reflexivity.
  - rewrite !MaxAttemptTimes_errors. eexists; split; reflexivity.
  - rewrite !MaxDelay_errors. eexists; split; reflexivity.
  - rewrite !WaitFixed_errors. eexists; split; reflexivity.
  - rewrite !WaitRandom_errors. eexists; split; reflexivity.
  - destruct i as [|typ body]; cbn [Function] in H1, H2; [discriminate|].
    destruct (negb (isFunc (typeKind typ)));
      inversion H1; inversion H2; subst; clear H1 H2.
    + eexists; split; reflexivity.
    + cbn [setF errors]. rewrite !recordIf_errors, <- !app_assoc.
      eexists; split; reflexivity.
Qed.

Lemma chain_errors_same (cs : list Call) (r r' a a' : Retryable) :
  chain r cs = Return r' -> chain a cs = Return a' ->
  exists l, errors r' = errors r ++ l /\ errors a' = errors a ++ l.
Proof.
  revert r a. induction cs as [|c cs IH]; intros r a; cbn [chain].
  - intros H1 H2. inversion H1; inversion H2; subst.
    exists []. now rewrite !app_nil_r.
  - destruct (call r c) as [r1|] eqn:E1; [|discriminate].
    destruct (call a c) as [a1|] eqn:E2; [|discriminate].
    intros H1 H2.
    destruct (call_errors_same _ _ _ _ _ E1 E2) as (l1 & Hr1 & Ha1).
    destruct (IH _ _ H1 H2) as (l2 & Hr2 & Ha2).
    exists (l1 ++ l2). rewrite Hr2, Ha2, Hr1, Ha1, !app_assoc. now split.
Qed.

End Accumulation.

(** X2. Validation is context-free and loses nothing: the errors that a
    chain of builder calls records are the same list whatever configuration
    the chain is applied to.  Applied to [r], the chain leaves the errors
    [r] had, followed by those it records when applied to [New]; if it
    records any, [Try] returns the composite of all of them, in call order,
    and does nothing else. *)
Theorem X2_validation_errors_add_up {P : Platform}
  (cs : list Call) (r r' r0 : Retryable) :
  chain r cs = Return r' ->
  chain New cs = Return r0 ->
  errors r' = errors r ++ errors r0
  /\ (errors r0 <> [] ->
      forall sched w,
        Try r' sched w
        = Some (Return (Some (Multi (errors r ++ errors r0))), w)).
Proof.
  intros H1 H2.
  destruct (chain_errors_same _ _ _ _ _ H1 H2) as (l & Hr & H0).
  cbn [errors New app] in H0. subst l. split; [exact Hr|].
  intros Hne sched w. rewrite <- Hr. apply Try_invalid.
  rewrite Hr. intros E. apply app_eq_nil in E. tauto.
Qed.

(** [New().MaxAttemptTimes(0).WaitRandom(-1, -1).MaxDelay(0)]: four errors. *)
Lemma X2_witness :
  let cs := [CWaitRandom (-1) (-1); CMaxDelay 0] in
  let r := MaxAttemptTimes New 0 in
  let r' := MaxDelay (WaitRandom r (-1) (-1)) 0 in
  let r0 := MaxDelay (WaitRandom New (-1) (-1)) 0 in
  (chain (P := simplePlatform) r cs = Return r'
   /\ chain (P := simplePlatform) New cs = Return r0
   /\ errors r0 <> [])
  /\ errors r' = errors r ++ errors r0
  /\ Try (P := simplePlatform) r' [] world0
     = Some (Return (Some (Multi
               [Errorf "max attempt times must be positive integer";
                Errorf "wait random min/max must be positive duration";
                Errorf "wait random min must be smaller than max";
                Errorf "max delay must be positive duration"])), world0).
Proof.
  intros cs r r' r0.
  assert (Hne : errors r0 <> []) by (cbn; discriminate).
  split; [split; [reflexivity|split; [reflexivity|exact Hne]]|].
  pose proof (X2_validation_errors_add_up (P := simplePlatform)
                cs r r' r0 eq_refl eq_refl) as [H1 H2].
  split; [exact H1|exact (H2 Hne [] world0)].
Defined.

(** X3. [Function] applied to a non-nil value always returns.  It records
    no error exactly when the value is a function with no input whose
    outputs are none or end in an error.  A value that is not a function
    leaves the operation slot as it was and records exactly one error; a
    function replaces the slot by a recovering wrapper even when its shape
    is rejected. *)
Theorem X3_Function_accepts_exactly_operations {P : Platform}
  (r : Retryable) (typ : rtype) (body : nat -> outcome (list GoValue)) :
  exists r',
    Function r (IValue typ body) = Return r'
    /\ (errors r' = errors r
        <-> typeKind typ = Func /\ NumIn typ = 0%nat
            /\ (NumOut typ = 0%nat \/ lastOutImplementsError typ = true))
    /\ (typeKind typ <> Func ->
        f r' = f r
        /\ List.length (errors r') = S (List.length (errors r)))
    /\ (typeKind typ = Func -> exists g, f r' = wrapRecoverFunc g).
Proof.
  assert (Hk : isFunc (typeKind typ) = true <-> typeKind typ = Func).
  { destruct (typeKind typ); cbn; split; intros H;
      reflexivity || discriminate. }
  assert (Hnil : forall l : list err, errors r ++ l = errors r <-> l = []).
  { intros l. split; [|intros ->; apply app_nil_r].
    intros H. apply (app_inv_head (errors r)). now rewrite app_nil_r. }
  cbn [Function]. destruct (isFunc (typeKind typ)) eqn:E; cbn [negb].
  - eexists. split; [reflexivity|].
    assert (Hf : typeKind typ = Func) by now apply Hk.
    split; [|split; [intros H; contradiction|intros _; eexists; reflexivity]].
    cbn [setF errors]. rewrite !recordIf_errors, <- app_assoc, Hnil.
    destruct (NumIn typ) as [|n]; cbn [Nat.eqb negb].
    + destruct (NumOut typ) as [|m]; cbn [Nat.ltb Nat.leb andb].
      * split; [intros _|reflexivity]. repeat split; try assumption.
        now left.
      * destruct (lastOutImplementsError typ); cbn [negb app].
        -- split; [intros _|reflexivity]. repeat split; try assumption.
           now right.
        -- split; [discriminate|].
           intros (_ & _ & [H|H]); discriminate.
    + split; [discriminate|]. intros (_ & H & _). discriminate.
  - eexists. split; [reflexivity|].
    assert (Hf : typeKind typ <> Func).
    { intros H. apply Hk in H. congruence. }
    split; [|split; [intros _|intros H; contradiction]].
    + cbn [record errors]. rewrite Hnil.
      split; [discriminate|]. intros (H & _). contradiction.
    + cbn [record f errors]. split; [reflexivity|].
      rewrite length_app. cbn. lia.
Qed.

Section Commutation.

Context {P : Platform}.

Lemma recordIf_options (c : bool) (r : Retryable) (e : err) :
  sameOptions (recordIf c r e) r /\ f (recordIf c r e) = f r.
Proof. destruct c; cbn; unfold sameOptions; repeat split. Qed.

(** An option setter looks at the options only, and keeps the slot. *)
Lemma setter_options (r r' a a' : Retryable) (c : Call) :
  (forall i', c <> CFunction i') ->
  sameOptions r a ->
  call r c = Return r' -> call a c = Return a' ->
  sameOptions r' a' /\ f r' = f r /\ f a' = f a.
Proof.
  intros Hc (h1 & h2 & h3 & h4 & h5 & h6 & h7).
  destruct c; cbn [call]; intros H1 H2;
    try (now destruct (Hc i));
    inversion H1; inversion H2; subst; clear H1 H2.
  - unfold Stack.
    destruct (recordIf_options (n <=? 0) r
                (Errorf "stack size must be positive integer"))
      as ((_ & _ & e3 & e4 & e5 & e6 & e7) & ef).
    destruct (recordIf_options (n <=? 0) a
                (Errorf "stack size must be positive integer"))
      as ((_ & _ & g3 & g4 & g5 & g6 & g7) & gf).
    unfold sameOptions. cbn. repeat split; congruence.
  - unfold MaxAttemptTimes.
    destruct (recordIf_options (n <=? 0) r
                (Errorf "max attempt times must be positive integer"))
      as ((e1 & e2 & _ & e4 & e5 & e6 & e7) & ef).
    destruct (recordIf_options (n <=? 0) a
                (Errorf "max attempt times must be positive integer"))
      as ((g1 & g2 & _ & g4 & g5 & g6 & g7) & gf).
    unfold sameOptions. cbn. repeat split; congruence.
  - unfold MaxDelay.
    destruct (recordIf_options (d <=? 0) r
                (Errorf "max delay must be positive duration"))
      as ((e1 & e2 & e3 & _ & e5 & e6 & e7) & ef).
    destruct (recordIf_options (d <=? 0) a
                (Errorf "max delay must be positive duration"))
      as ((g1 & g2 & g3 & _ & g5 & g6 & g7) & gf).
    unfold sameOptions. cbn. repeat split; congruence.
  - unfold WaitFixed.
    destruct (recordIf_options (d <=? 0) r
                (Errorf "wait fixed must be positive duration"))
      as ((e1 & e2 & e3 & e4 & _ & e6 & e7) & ef).
    destruct (recordIf_options (d <=? 0) a
                (Errorf "wait fixed must be positive duration"))
      as ((g1 & g2 & g3 & g4 & _ & g6 & g7) & gf).
    unfold sameOptions. cbn. repeat split; congruence.
  - unfold WaitRandom.
    set (x := recordIf ((min <? 0) || (max <? 0)) r
                (Errorf "wait random min/max must be positive duration")).
    set (y := recordIf ((min <? 0) || (max <? 0)) a
                (Errorf "wait random min/max must be positive duration")).
    destruct (recordIf_options ((min <? 0) || (max <? 0)) r
                (Errorf "wait random min/max must be positive duration"))
      as ((e1 & e2 & e3 & e4 & e5 & _) & ef).
    destruct (recordIf_options ((min <? 0) || (max <? 0)) a
                (Errorf "wait random min/max must be positive duration"))
      as ((g1 & g2 & g3 & g4 & g5 & _) & gf).
    destruct (recordIf_options (min >=? max) x
                (Errorf "wait random min must be smaller than max"))
      as ((x1 & x2 & x3 & x4 & x5 & _) & xf).
    destruct (recordIf_options (min >=? max) y
                (Errorf "wait random min must be smaller than max"))
      as ((y1 & y2 & y3 & y4 & y5 & _) & yf).
    fold x in e1, e2, e3, e4, e5, ef. fold y in g1, g2, g3, g4, g5, gf.
    unfold sameOptions. cbn. repeat split; congruence.
Qed.

(** [Function] keeps the options; the new slot is decided by the value and
    the old slot. *)
Lemma Function_options (r r' : Retryable) (typ : rtype)
  (body : nat -> outcome (list GoValue)) :
  Function r (IValue typ body) = Return r' ->
  sameOptions r' r
  /\ f r' = if isFunc (typeKind typ)
            then wrapRecoverFunc
                   (match NumOut typ with
                    | O => callNoOutput typ body
                    | S _ => callLastOutput typ body
                    end)
            else f r.
Proof.
  cbn [Function]. destruct (isFunc (typeKind typ)); cbn [negb]; intros H.
  - set (c1 := negb (NumIn typ =? 0)%nat) in H.
    set (e1 := Errorf ("expected 0 inputs but get " ++ itoa (NumIn typ))) in H.
    set (c2 := ((0 <? NumOut typ)%nat && negb (lastOutImplementsError typ))) in H.
    set (e2 := Errorf "expected 0 output or last output implements error interface") in H.
    destruct (recordIf_options c1 r e1) as ((a1 & a2 & a3 & a4 & a5 & a6 & a7) & _).
    destruct (recordIf_options c2 (recordIf c1 r e1) e2)
      as ((b1 & b2 & b3 & b4 & b5 & b6 & b7) & _).
    injection H as <-. unfold sameOptions. cbn [setF stackSize allGoroutines
      maxAttemptTimes maxDelay waitFixed waitRandomMin waitRandomMax f].
    repeat split; congruence.
  - injection H as <-. unfold sameOptions. cbn. repeat split.
Qed.

End Commutation.

(** X4. [Function] commutes with every other builder call.  Binding the
    operation before or after setting an option gives the same options and
    the same operation slot, and the same validation errors up to their
    order; in particular the wrapper, which reads the stack parameters when
    it recovers, uses those of a [Stack] call made after [Function]. *)
Theorem X4_Function_commutes_with_options {P : Platform}
  (r r1 r2 : Retryable) (i : iface) (c : Call) :
  (forall i', c <> CFunction i') ->
  chain r [CFunction i; c] = Return r1 ->
  chain r [c; CFunction i] = Return r2 ->
  (stackSize r1 = stackSize r2 /\ allGoroutines r1 = allGoroutines r2
   /\ maxAttemptTimes r1 = maxAttemptTimes r2 /\ maxDelay r1 = maxDelay r2
   /\ waitFixed r1 = waitFixed r2 /\ waitRandomMin r1 = waitRandomMin r2
   /\ waitRandomMax r1 = waitRandomMax r2 /\ f r1 = f r2)
  /\ Permutation (errors r1) (errors r2)
  /\ (forall k, invoke r1 k = invoke r2 k).
Proof.
  intros Hc H1 H2. cbn [chain] in H1, H2.
  destruct (call r (CFunction i)) as [ra|] eqn:Ea; [|discriminate].
  destruct (call ra c) as [ra'|] eqn:Ea'; [|discriminate].
  destruct (call r c) as [rb|] eqn:Eb; [|discriminate].
  destruct (call rb (CFunction i)) as [rb'|] eqn:Eb'; [|discriminate].
  injection H1 as ->. injection H2 as ->.
  assert (Hfields : sameOptions r1 r2 /\ f r1 = f r2).
  { destruct i as [|typ body]; [discriminate|]. cbn [call] in Ea, Eb'.
    destruct (Function_options _ _ _ _ Ea) as (Ha & Hfa).
    destruct (Function_options _ _ _ _ Eb') as (Hb & Hfb).
    destruct (setter_options ra r1 r rb c Hc Ha Ea' Eb) as (Hs & Hf1 & Hf2).
    split.
    - unfold sameOptions in *.
      destruct Hs as (s1 & s2 & s3 & s4 & s5 & s6 & s7).
      destruct Hb as (b1 & b2 & b3 & b4 & b5 & b6 & b7).
      repeat split; congruence.
    - rewrite Hf1, Hfa, Hfb, Hf2. reflexivity. }
  destruct Hfields as ((s1 & s2 & s3 & s4 & s5 & s6 & s7) & sf).
  split; [repeat split; assumption|]. split.
  - destruct (call_errors_same _ _ _ _ _ Ea Eb') as (lF & HF1 & HF2).
    destruct (call_errors_same _ _ _ _ _ Ea' Eb) as (lC & HC1 & HC2).
    rewrite HC1, HF1, HF2, HC2, <- !app_assoc.
    apply Permutation_app_head, Permutation_app_comm.
  - intros k. unfold invoke. now rewrite s1, s2, sf.
Qed.

(** [Function(panics).Stack(8, false)] and [Stack(8, false).Function(panics)]
    recover into the same 8-byte buffer. *)
Lemma X4_witness :
  let r1 := Stack (bound (P := simplePlatform) New alwaysPanics) 8 false in
  let r2 := bound (P := simplePlatform) (Stack New 8 false) alwaysPanics in
  ((forall i', CStack 8 false <> CFunction i')
   /\ chain (P := simplePlatform) New [CFunction alwaysPanics; CStack 8 false]
      = Return r1
   /\ chain (P := simplePlatform) New [CStack 8 false; CFunction alwaysPanics]
      = Return r2)
  /\ invoke r1 0
     = Return (Some (Errorf ("DLLM" ++ nl ++ "goroutin" ++ nl)))
  /\ invoke r1 0 = invoke r2 0.
Proof.
  intros r1 r2.
  assert (Hc : forall i', CStack 8 false <> CFunction i') by discriminate.
  split; [split; [exact Hc|split; reflexivity]|].
  split; [reflexivity|].
  exact (proj2 (proj2 (X4_Function_commutes_with_options (P := simplePlatform)
                         New r1 r2 alwaysPanics (CStack 8 false)
                         Hc eq_refl eq_refl)) 0%nat).
Defined.

(** ** The engine on an arbitrary operation *)

Section EngineMore.

Context {P : Platform}.

Lemma call_guarded (r r' : Retryable) (c : Call) :
  guarded r -> call r c = Return r' -> guarded r'.
Proof.
  intros Hg. destruct c; cbn [call]; intros H.
  1-5: injection H as <-; unfold guarded in *;
       unfold Stack, MaxAttemptTimes, MaxDelay, WaitFixed, WaitRandom;
       cbn [f]; rewrite ?(fun c r e => proj2 (recordIf_options c r e));
       exact Hg.
  destruct i as [|typ body]; [discriminate|].
  destruct (Function_options _ _ _ _ H) as (_ & Hf). unfold guarded.
  rewrite Hf. destruct (isFunc (typeKind typ)).
  - right. eexists. reflexivity.
  - exact Hg.
Qed.

Lemma chain_guarded (cs : list Call) (r r' : Retryable) :
  guarded r -> chain r cs = Return r' -> guarded r'.
Proof.
  revert r. induction cs as [|c cs IH]; intros r Hg; cbn [chain].
  - intros H. now inversion H; subst.
  - destruct (call r c) as [r1|] eqn:E; [|discriminate].
    apply IH. eapply call_guarded; eassumption.
Qed.

(** Behind the wrapper, with a buffer size that is not negative, an
    invocation of the slot returns. *)
Lemma invoke_guarded (r : Retryable) (k : nat) :
  guarded r -> 0 <= stackSize r -> exists e, invoke r k = Return e.
Proof.
  intros [Hf | [g Hf]] Hs; unfold invoke; rewrite Hf.
  - eexists. reflexivity.
  - unfold wrapRecoverFunc. destruct (g k) as [e|p].
    + now exists e.
    + replace (stackSize r <? 0) with false
        by (symmetry; apply Z.ltb_ge; lia).
      eexists. reflexivity.
Qed.

(** The result of the [k]-th invocation of the slot, when it returns. *)
Lemma invoke_result (r : Retryable) :
  guarded r -> 0 <= stackSize r ->
  exists res : nat -> option err, forall k, invoke r k = Return (res k).
Proof.
  intros Hg Hs.
  exists (fun k => match invoke r k with Return e => e | Panic _ => None end).
  intros k. destruct (invoke_guarded r k Hg Hs) as [e He]. now rewrite He.
Qed.

Lemma wait_backoff (r : Retryable) (w : World) :
  Validated r ->
  exists d w',
    wait r w = (Return tt, w')
    /\ calls w' = calls w
    /\ sleeps w' = sleeps w ++ [d]
    /\ backoff r d.
Proof.
  intros [_ _ _ Hf [Hmin Hmax] Hr]. unfold wait, backoff.
  destruct (0 <? waitFixed r) eqn:E0.
  - apply Z.ltb_lt in E0.
    replace (waitFixed r <=? 0) with false by (symmetry; apply Z.leb_gt; lia).
    cbn [andb]. eexists. eexists. repeat split.
  - apply Z.ltb_ge in E0.
    replace (waitFixed r <=? 0) with true by (symmetry; apply Z.leb_le; lia).
    cbn [andb]. rewrite Z.gtb_ltb.
    destruct (waitRandomMin r <? waitRandomMax r) eqn:E1.
    + apply Z.ltb_lt in E1. unfold bind, randInt63n.
      rewrite wrap64_id by (unfold int64; lia).
      replace (waitRandomMax r - waitRandomMin r <=? 0) with false
        by (symmetry; apply Z.leb_gt; lia).
      pose proof (Int63n_range (draws w)
                    (waitRandomMax r - waitRandomMin r) ltac:(lia)) as Hd.
      rewrite wrap64_id by (unfold int64; lia).
      eexists. eexists. split; [reflexivity|]. cbn [calls sleeps].
      repeat split; lia.
    + eexists. eexists. split; [reflexivity|]. cbn [calls sleeps].
      repeat split. lia.
Qed.

(** The loop on an operation with results [res]: either one of the [n]
    attempts left returns nil, and the loop stops there with nil; or all of
    them fail and the loop ends with the report of their failures.  One
    [sleep] follows every failed attempt. *)
Lemma tryLoop_outcome (r : Retryable) (res : nat -> option err) :
  Validated r ->
  (forall k, invoke r k = Return (res k)) ->
  forall (n : nat) (l : list err) (w : World),
  exists o w' ds,
    tryLoop r n l w = (Return o, w')
    /\ sleeps w' = sleeps w ++ ds
    /\ Forall (backoff r) ds
    /\ ((o = None
         /\ exists k, (k < n)%nat
              /\ res (calls w + k)%nat = None
              /\ (forall i, (i < k)%nat -> res (calls w + i)%nat <> None)
              /\ calls w' = (calls w + S k)%nat
              /\ List.length ds = k)
        \/ (exists fs,
              o = ErrorOrNil (l ++ fs)
              /\ map Some fs = map res (seq (calls w) n)
              /\ calls w' = (calls w + n)%nat
              /\ List.length ds = n)).
Proof.
  intros Hv Hres. induction n as [|n IH]; intros l w.
  - exists (ErrorOrNil l), w, []. cbn [tryLoop ret].
    split; [reflexivity|]. split; [now rewrite app_nil_r|].
    split; [constructor|]. right. exists [].
    rewrite app_nil_r. cbn. repeat split. lia.
  - destruct (res (calls w)) as [e|] eqn:E.
    + rewrite (tryLoop_failure r n l w e) by (now rewrite Hres, E).
      set (w1 := {| calls := S (calls w); sleeps := sleeps w;
                    draws := draws w |}).
      destruct (wait_backoff r w1 Hv) as (d & w2 & Hw & Hc2 & Hs2 & Hb).
      destruct (IH (l ++ [e]) w2) as (o & w3 & ds & Ht & Hs3 & Hf & Hcase).
      exists o, w3, (d :: ds). unfold bind. rewrite Hw, Ht.
      split; [reflexivity|].
      split; [rewrite Hs3, Hs2; cbn [sleeps w1]; now rewrite <- app_assoc|].
      split; [now constructor|].
      rewrite Hc2 in Hcase. cbn [calls w1] in Hcase.
      destruct Hcase as [(Ho & k & Hk & Hnil & Hbefore & Hc & Hl)
                        | (fs & Ho & Hfs & Hc & Hl)].
      * left. split; [exact Ho|]. exists (S k).
        split; [lia|].
        split; [now replace (calls w + S k)%nat with (S (calls w) + k)%nat
                  by lia|].
        split.
        -- intros i Hi. destruct i as [|i].
           ++ rewrite Nat.add_0_r, E. discriminate.
           ++ replace (calls w + S i)%nat with (S (calls w) + i)%nat by lia.
              apply Hbefore. lia.
        -- split; [lia|]. cbn. now rewrite Hl.
      * right. exists (e :: fs).
        split; [now rewrite Ho, <- app_assoc|].
        split; [cbn [seq map]; now rewrite E, Hfs|].
        split; [lia|]. cbn. now rewrite Hl.
    + rewrite (tryLoop_success r n l w) by (now rewrite Hres, E).
      eexists. eexists. exists [].
      split; [reflexivity|]. cbn [sleeps calls].
      split; [now rewrite app_nil_r|]. split; [constructor|].
      left. split; [reflexivity|]. exists 0%nat.
      split; [lia|]. split; [now rewrite Nat.add_0_r|].
      split; [intros i Hi; lia|]. split; [lia|reflexivity].
Qed.

End EngineMore.

(** X6. Without a deadline, on a validated configuration with no recorded
    error, [Try] returns, and what it returns is decided by the first
    [maxAttemptTimes] results of the operation.  If one of them is nil,
    [Try] returns nil and the operation has been invoked exactly up to the
    first such attempt.  Otherwise [Try] returns a composite whose
    components are those [maxAttemptTimes] failures in attempt order, and
    the operation has been invoked exactly [maxAttemptTimes] times.  So
    [Try] returns nil if and only if one of the allowed attempts succeeds. *)
Theorem X6_sequential_outcome {P : Platform}
  (r : Retryable) (N : nat) (res : nat -> option err)
  (sched : list Event) (w : World) :
  Validated r ->
  errors r = [] ->
  maxDelay r = 0 ->
  maxAttemptTimes r = Z.of_nat N ->
  (forall k, invoke r k = Return (res k)) ->
  exists o w',
    Try r sched w = Some (Return o, w')
    /\ ((o = None
         /\ exists k, (k < N)%nat
              /\ res (calls w + k)%nat = None
              /\ (forall i, (i < k)%nat -> res (calls w + i)%nat <> None)
              /\ calls w' = (calls w + S k)%nat)
        \/ (exists fs,
              o = Some (Multi fs)
              /\ map Some fs = map res (seq (calls w) N)
              /\ (forall k, (k < N)%nat -> res (calls w + k)%nat <> None)
              /\ calls w' = (calls w + N)%nat))
    /\ (o = None <-> exists k, (k < N)%nat /\ res (calls w + k)%nat = None).
Proof.
  intros Hv He Hd HN Hres.
  rewrite Try_unbounded by (assumption || lia).
  unfold tryWithoutTimeout. rewrite HN, Nat2Z.id.
  destruct (tryLoop_outcome r res Hv Hres N [] w)
    as (o & w' & ds & Ht & _ & _ & Hcase).
  exists o, w'. rewrite Ht. split; [reflexivity|].
  assert (HN1 : (1 <= N)%nat) by (destruct Hv; lia).
  destruct Hcase as [(Ho & k & Hk & Hnil & Hbefore & Hc & _)
                    | (fs & Ho & Hfs & Hc & _)].
  - split.
    + left. split; [exact Ho|]. exists k. repeat split; assumption.
    + split; [intros _; exists k; now split|intros _; exact Ho].
  - assert (Hall : forall k, (k < N)%nat -> res (calls w + k)%nat <> None).
    { intros k Hk Hn.
      assert (Hin : In (res (calls w + k)%nat) (map res (seq (calls w) N))).
      { apply in_map, in_seq. lia. }
      rewrite <- Hfs, Hn in Hin. apply in_map_iff in Hin.
      destruct Hin as (x & Hx & _). discriminate. }
    assert (Hlen : List.length fs = N).
    { rewrite <- (length_map Some), Hfs, length_map. apply length_seq. }
    cbn [app] in Ho.
    assert (Ho' : o = Some (Multi fs)).
    { rewrite Ho. destruct fs; [cbn in Hlen; lia|reflexivity]. }
    split.
    + right. exists fs. repeat split; assumption.
    + rewrite Ho'. split; [discriminate|].
      intros (k & Hk & Hn). now destruct (Hall k Hk).
Qed.

(** The test "succeed after two errors": nil after three of five attempts. *)
Lemma X6_witness :
  let r := bound (P := simplePlatform) (MaxAttemptTimes New 5) failsTwice in
  let res := fun k : nat =>
               if (k =? 2)%nat then None else Some (Errorf "") in
  (Validated r /\ errors r = [] /\ maxDelay r = 0
   /\ maxAttemptTimes r = Z.of_nat 5
   /\ (forall k, invoke r k = Return (res k)))
  /\ exists o w',
       Try (P := simplePlatform) r [] world0 = Some (Return o, w')
       /\ (o = None <-> exists k, (k < 5)%nat /\ res (calls world0 + k)%nat = None).
Proof.
  intros r res.
  assert (Hv : Validated r)
    by (constructor; cbn; unfold defaultStackSize; lia).
  assert (Hres : forall k, invoke r k = Return (res k)).
  { intros k. destruct k as [|[|[|k]]]; reflexivity. }
  split; [split; [exact Hv|repeat split; exact Hres]|].
  destruct (X6_sequential_outcome (P := simplePlatform)
              r 5 res [] world0 Hv eq_refl eq_refl eq_refl Hres)
    as (o & w' & Ht & _ & Hiff).
  exists o, w'. split; [exact Ht|exact Hiff].
Defined.

(** X7. Without a deadline, on a validated configuration with no recorded
    error, [Try] calls [sleep] once after every failed attempt, the last
    one included, and never after a successful one: the number of sleeps is
    the number of invocations when the result is a report, and one less
    when it is nil.  Every duration slept is the fixed wait when one is
    set, else lies in [[waitRandomMin, waitRandomMax)] when the bounds are
    set, else is zero. *)
Theorem X7_sequential_sleeps {P : Platform}
  (r : Retryable) (res : nat -> option err)
  (sched : list Event) (w : World) :
  Validated r ->
  errors r = [] ->
  maxDelay r = 0 ->
  (forall k, invoke r k = Return (res k)) ->
  exists o w' ds,
    Try r sched w = Some (Return o, w')
    /\ sleeps w' = sleeps w ++ ds
    /\ Forall (backoff r) ds
    /\ (calls w' = (calls w + List.length ds
                    + match o with None => 1 | Some _ => 0 end)%nat).
Proof.
  intros Hv He Hd Hres.
  rewrite Try_unbounded by (assumption || lia).
  unfold tryWithoutTimeout.
  destruct (tryLoop_outcome r res Hv Hres
              (Z.to_nat (maxAttemptTimes r)) [] w)
    as (o & w' & ds & Ht & Hs & Hf & Hcase).
  exists o, w', ds. rewrite Ht.
  split; [reflexivity|]. split; [exact Hs|]. split; [exact Hf|].
  destruct Hcase as [(Ho & k & Hk & _ & _ & Hc & Hl)
                    | (fs & Ho & Hfs & Hc & Hl)].
  - rewrite Ho, Hc, Hl. lia.
  - assert (Hlen : List.length fs = Z.to_nat (maxAttemptTimes r)).
    { rewrite <- (length_map Some), Hfs, length_map. apply length_seq. }
    rewrite Ho, Hc, Hl. cbn [app].
    destruct fs; [cbn in Hlen; destruct Hv; lia|]. cbn. lia.
Qed.

(** Three failing attempts with [WaitRandom(time.Second, 2*time.Second)]. *)
Lemma X7_witness :
  let r := WaitRandom (bound (P := simplePlatform)
                         (MaxAttemptTimes New 3) alwaysFails)
             1000000000 2000000000 in
  let res := fun _ : nat => Some (Errorf "dllm") in
  (Validated r /\ errors r = [] /\ maxDelay r = 0
   /\ (forall k, invoke r k = Return (res k)))
  /\ exists o w' ds,
       Try (P := simplePlatform) r [] world0 = Some (Return o, w')
       /\ sleeps w' = sleeps world0 ++ ds
       /\ Forall (backoff r) ds
       /\ (calls w' = (calls world0 + List.length ds
                       + match o with None => 1 | Some _ => 0 end)%nat).
Proof.
  intros r res.
  assert (Hv : Validated r)
    by (constructor; cbn; unfold defaultStackSize; lia).
  assert (Hres : forall k, invoke r k = Return (res k))
    by (intros k; reflexivity).
  split; [split; [exact Hv|repeat split; exact Hres]|].
  exact (X7_sequential_sleeps (P := simplePlatform)
           r res [] world0 Hv eq_refl eq_refl Hres).
Defined.

(** ** More on bounded-time mode *)

Section RaceMore.

Context {P : Platform}.

(** The producer does not die when the slot and [wait] return. *)
Lemma step_alive (r : Retryable) (ev : Event) (s s' : Race) :
  Validated r ->
  (forall k, exists e, invoke r k = Return e) ->
  (forall p, producer s <> PPanicked p) ->
  step r ev s = Some s' ->
  forall p, producer s' <> PPanicked p.
Proof.
  intros Hv Hin Hs. destruct ev; cbn [step].
  - unfold produce. destruct (producer s) eqn:Ep; try discriminate;
      intros H.
    + inversion H; subst. cbn. destruct (count s >? 0); discriminate.
    + rewrite callF_invoke in H.
      destruct (Hin (calls (world s))) as [e He]. rewrite He in H.
      inversion H; subst. cbn. discriminate.
    + destruct (wait_returns r (world s) Hv) as (w' & Hw & _).
      rewrite Hw in H. inversion H; subst. cbn. discriminate.
    + inversion H; subst. cbn. discriminate.
  - unfold deliver. destruct (producer s); try discriminate.
    destruct (coordinator s); try discriminate.
    intros H. inversion H; subst. cbn. discriminate.
  - unfold coordinate. destruct (coordinator s) as [|e| |]; try discriminate.
    + destruct e; intros H; inversion H; subst; cbn; exact Hs.
    + destruct (count s <=? 0); intros H; inversion H; subst; cbn; exact Hs.
  - unfold timerFires. destruct (fired s); [discriminate|].
    intros H. inversion H; subst. cbn. exact Hs.
  - unfold selectTimer. destruct (coordinator s); try discriminate.
    destruct (fired s); [|discriminate].
    intros H. inversion H; subst. cbn. exact Hs.
Qed.

Lemma run_alive (r : Retryable) (sched : list Event) (s : Race)
  (o : outcome (option error)) (w' : World) :
  Validated r ->
  (forall k, exists e, invoke r k = Return e) ->
  (forall p, producer s <> PPanicked p) ->
  run r sched s = Some (o, w') ->
  exists res, o = Return res.
Proof.
  intros Hv Hin. revert s.
  assert (Hfin : forall s o', (forall p, producer s <> PPanicked p) ->
            finished s = Some o' -> exists res, o' = Return res).
  { intros s o' Hs. unfold finished.
    destruct (coordinator s) as [| | |res0].
    1-3: destruct (producer s) eqn:Ep; try discriminate;
         now destruct (Hs p).
    intros H. inversion H. now exists res0. }
  induction sched as [|ev sched IH]; intros s Hs; cbn [run].
  - destruct (finished s) as [o'|] eqn:Ef; [|discriminate].
    intros H. inversion H; subst. eapply Hfin; eassumption.
  - destruct (finished s) as [o'|] eqn:Ef.
    + intros H. inversion H; subst. eapply Hfin; eassumption.
    + destruct (step r ev s) as [s1|] eqn:Es; [|discriminate].
      apply IH. eapply step_alive; eassumption.
Qed.

Lemma run_cons (r : Retryable) (ev : Event) (post : list Event)
  (s s' : Race) :
  finished s = None -> step r ev s = Some s' ->
  run r (ev :: post) s = run r post s'.
Proof. intros Hf Hs. cbn [run]. now rewrite Hf, Hs. Qed.

Lemma run_finished (r : Retryable) (post : list Event) (s : Race)
  (o : outcome (option error)) :
  finished s = Some o -> run r post s = Some (o, world s).
Proof. intros Hf. destruct post; cbn [run]; now rewrite Hf. Qed.

Lemma finished_waiting (s : Race) (c : Coordinator) (l : list err) :
  finished s = None -> (forall res, c <> CReturned res) ->
  finished (setCoordinator s c l) = None.
Proof.
  unfold finished. cbn [setCoordinator coordinator producer].
  intros Hf Hc. destruct c as [| | |res]; try now destruct (Hc res).
  all: destruct (coordinator s); destruct (producer s);
    try discriminate; reflexivity.
Qed.

(** From a state in which the caller is still waiting, moves of the
    coordinator and of the timer alone bring the result. *)
Lemma run_without_producer (r : Retryable) (s : Race) :
  finished s = None ->
  exists post o,
    (List.length post <= 4)%nat
    /\ Forall (fun ev => ev <> Produce /\ ev <> Deliver) post
    /\ run r post s = Some (o, world s).
Proof.
  intros Hf.
  assert (Hsel : forall s0, finished s0 = None -> coordinator s0 = CSelect ->
            exists post o,
              (List.length post <= 2)%nat
              /\ Forall (fun ev => ev <> Produce /\ ev <> Deliver) post
              /\ run r post s0 = Some (o, world s0)).
  { intros s0 Hf0 Hc0. destruct (fired s0) eqn:Et.
    - exists [SelectTimer]. eexists. split; [cbn; lia|].
      split; [repeat constructor; discriminate|].
      erewrite run_cons;
        [|exact Hf0|cbn [step]; unfold selectTimer; rewrite Hc0, Et;
                    reflexivity].
      cbn [run]; unfold finished;
        cbn [setCoordinator coordinator producer world]; reflexivity.
    - exists [TimerFires; SelectTimer]. eexists. split; [cbn; lia|].
      split; [repeat constructor; discriminate|].
      erewrite run_cons;
        [|exact Hf0|cbn [step]; unfold timerFires; rewrite Et; reflexivity].
      erewrite run_cons;
        [|exact Hf0|cbn [step]; unfold selectTimer; cbn [coordinator fired];
                    rewrite Hc0; reflexivity].
      cbn [run]; unfold finished;
        cbn [setCoordinator coordinator producer world]; reflexivity. }
  assert (Hchk : forall s0, finished s0 = None -> coordinator s0 = CCheck ->
            exists post o,
              (List.length post <= 3)%nat
              /\ Forall (fun ev => ev <> Produce /\ ev <> Deliver) post
              /\ run r post s0 = Some (o, world s0)).
  { intros s0 Hf0 Hc0. destruct (count s0 <=? 0) eqn:Ec.
    - exists [Coordinate]. eexists. split; [cbn; lia|].
      split; [repeat constructor; discriminate|].
      erewrite run_cons;
        [|exact Hf0|cbn [step]; unfold coordinate; rewrite Hc0, Ec;
                    reflexivity].
      cbn [run]; unfold finished;
        cbn [setCoordinator coordinator producer world]; reflexivity.
    - set (s1 := setCoordinator s0 CSelect (errs s0)).
      assert (Hf1 : finished s1 = None)
        by (apply finished_waiting; [exact Hf0|discriminate]).
      destruct (Hsel s1 Hf1 eq_refl) as (post & o & Hl & Hfa & Hr).
      exists (Coordinate :: post), o. split; [cbn; lia|].
      split; [constructor; [split; discriminate|exact Hfa]|].
      erewrite run_cons;
        [|exact Hf0|cbn [step]; unfold coordinate; rewrite Hc0, Ec;
                    reflexivity].
      exact Hr. }
  destruct (coordinator s) as [|e| |res] eqn:Ec.
  - destruct (Hsel s Hf Ec) as (post & o & Hl & Hfa & Hr).
    exists post, o. split; [lia|]. now split.
  - destruct e as [e|].
    + set (s1 := setCoordinator s CCheck (Append (errs s) [Some e])).
      assert (Hf1 : finished s1 = None)
        by (apply finished_waiting; [exact Hf|discriminate]).
      destruct (Hchk s1 Hf1 eq_refl) as (post & o & Hl & Hfa & Hr).
      exists (Coordinate :: post), o. split; [cbn; lia|].
      split; [constructor; [split; discriminate|exact Hfa]|].
      erewrite run_cons;
        [|exact Hf|cbn [step]; unfold coordinate; rewrite Ec; reflexivity].
      exact Hr.
    + exists [Coordinate]. eexists. split; [cbn; lia|].
      split; [repeat constructor; discriminate|].
      erewrite run_cons;
        [|exact Hf|cbn [step]; unfold coordinate; rewrite Ec; reflexivity].
      cbn [run]; unfold finished;
        cbn [setCoordinator coordinator producer world]; reflexivity.
  - destruct (Hchk s Hf Ec) as (post & o & Hl & Hfa & Hr).
    exists post, o. split; [lia|]. now split.
  - unfold finished in Hf. rewrite Ec in Hf. discriminate.
Qed.

End RaceMore.

(** X5. [Try] never panics on a configuration built from [New] by builder
    calls with well-typed arguments, whatever the bound function does when
    it is invoked (return anything, or panic at every invocation) and in
    either mode: a run that gives the caller a result gives a returned
    value.  Without a deadline, or with a recorded validation error, [Try]
    always returns (every invocation of the operation ending, as in the
    model, by a return or a panic). *)
Theorem X5_Try_never_panics {P : Platform}
  (cs : list Call) (r : Retryable) (sched : list Event) (w : World) :
  Forall wellTyped cs ->
  chain New cs = Return r ->
  (forall o w', Try r sched w = Some (o, w') -> exists res, o = Return res)
  /\ (maxDelay r <= 0 \/ errors r <> [] ->
      exists res w', Try r sched w = Some (Return res, w')).
Proof.
  intros Hty Hc.
  destruct (errors r) as [|e0 l0] eqn:He.
  - pose proof (chain_validated cs r Hty Hc He) as Hv.
    assert (Hg : guarded r).
    { apply (chain_guarded cs New r); [now left|exact Hc]. }
    destruct (invoke_result r Hg) as [res Hres]; [destruct Hv; lia|].
    assert (Hseq : maxDelay r <= 0 ->
              exists o w', Try r sched w = Some (Return o, w')).
    { intros Hd. rewrite Try_unbounded by assumption.
      unfold tryWithoutTimeout.
      destruct (tryLoop_outcome r res Hv Hres
                  (Z.to_nat (maxAttemptTimes r)) [] w)
        as (o & w' & ds & Ht & _).
      exists o, w'. now rewrite Ht. }
    split.
    + intros o w' Ht. destruct (Z_lt_le_dec 0 (maxDelay r)) as [Hd|Hd].
      * rewrite Try_bounded in Ht by assumption.
        apply (run_alive r sched (start r w) o w' Hv); try assumption.
        -- intros k. exists (res k). apply Hres.
        -- intros p. cbn. discriminate.
      * destruct (Hseq Hd) as (o1 & w1 & H1). rewrite H1 in Ht.
        inversion Ht; subst. now exists o1.
    + intros [Hd | Hne]; [now apply Hseq|congruence].
  - assert (Hne : errors r <> []) by (rewrite He; discriminate).
    rewrite <- He. split.
    + intros o w'. rewrite Try_invalid by assumption.
      intros H. inversion H; subst. eexists. reflexivity.
    + intros _. rewrite Try_invalid by assumption.
      eexists. eexists. reflexivity.
Qed.

(** A function that panics at every invocation, three attempts. *)
Lemma X5_witness :
  let cs := [CMaxAttemptTimes 3; CStack 8 false; CFunction alwaysPanics] in
  let r := bound (P := simplePlatform)
             (Stack (MaxAttemptTimes New 3) 8 false) alwaysPanics in
  (Forall wellTyped cs /\ chain (P := simplePlatform) New cs = Return r
   /\ maxDelay r <= 0)
  /\ exists res w',
       Try (P := simplePlatform) r [] world0 = Some (Return res, w').
Proof.
  intros cs r.
  assert (Hty : Forall wellTyped cs).
  { repeat constructor; unfold int64; lia. }
  assert (Hd : maxDelay r <= 0) by (cbn; lia).
  split; [split; [exact Hty|split; [reflexivity|exact Hd]]|].
  exact (proj2 (X5_Try_never_panics (P := simplePlatform)
                  cs r [] world0 Hty eq_refl) (or_introl Hd)).
Defined.

(** X8. In bounded-time mode the caller does not depend on the operation
    to get a result.  From any point of a run, at most four moves of the
    coordinator and the timer (the pending append and test, the timer
    expiring, [select] taking the timer case) make [Try] return, with no
    move of the producer and the world left as it is: an operation that
    never returns cannot keep [Try] from returning. *)
Theorem X8_deadline_frees_the_caller {P : Platform}
  (r : Retryable) (pre : list Event) (w : World) (s : Race) :
  errors r = [] ->
  0 < maxDelay r ->
  exec r pre (start r w) = Some s ->
  exists post o,
    (List.length post <= 4)%nat
    /\ Forall (fun ev => ev <> Produce /\ ev <> Deliver) post
    /\ Try r (pre ++ post) w = Some (o, world s).
Proof.
  intros He Hd Hx.
  destruct (finished s) as [o|] eqn:Ef.
  - exists [], o. split; [cbn; lia|]. split; [constructor|].
    rewrite Try_bounded by assumption. unfold tryWithTimeout.
    rewrite (run_exec _ _ _ _ _ Hx). now apply run_finished.
  - destruct (run_without_producer r s Ef) as (post & o & Hl & Hfa & Hr).
    exists post, o. split; [exact Hl|]. split; [exact Hfa|].
    rewrite Try_bounded by assumption. unfold tryWithTimeout.
    now rewrite (run_exec _ _ _ _ _ Hx).
Qed.

(** The test "timeout": the first invocation has not returned. *)
Lemma X8_witness :
  let r := bound (P := simplePlatform) (MaxDelay New 1000000000)
             (IValue funcNoOutput (fun _ => Return [])) in
  let s := {| count := 1; producer := PCall; coordinator := CSelect;
              errs := []; fired := false; world := world0 |} in
  (errors r = [] /\ 0 < maxDelay r
   /\ exec (P := simplePlatform) r [Produce] (start r world0) = Some s)
  /\ exists post o,
       (List.length post <= 4)%nat
       /\ Forall (fun ev => ev <> Produce /\ ev <> Deliver) post
       /\ Try (P := simplePlatform) r ([Produce] ++ post) world0
          = Some (o, world s).
Proof.
  intros r s. split; [repeat split|].
  exact (X8_deadline_frees_the_caller (P := simplePlatform)
           r [Produce] world0 s eq_refl eq_refl eq_refl).
Defined.

(** X9. In bounded-time mode, on a validated configuration with no
    recorded error, an operation that fails at every invocation never
    makes [Try] return nil or a partial report: every run that returns
    gives [ErrTimeout] or the composite of all [maxAttemptTimes] failures
    in attempt order.  Both happen, depending on the schedule. *)
Theorem X9_bounded_all_fail_outcomes {P : Platform}
  (r : Retryable) (N : nat) (fails : nat -> err) (w : World) :
  Validated r ->
  errors r = [] ->
  0 < maxDelay r ->
  maxAttemptTimes r = Z.of_nat N ->
  (forall k, invoke r k = Return (Some (fails k))) ->
  (forall sched o w',
     Try r sched w = Some (o, w') ->
     o = Return (Some (Plain ErrTimeout))
     \/ o = Return (Some (Multi (map fails (seq (calls w) N)))))
  /\ (exists sched w',
        Try r sched w
        = Some (Return (Some (Multi (map fails (seq (calls w) N)))), w'))
  /\ (exists sched w',
        Try r sched w = Some (Return (Some (Plain ErrTimeout)), w')).
Proof.
  intros Hv He Hd HN Hf. split; [|split].
  - intros sched o w'. rewrite Try_bounded by assumption.
    now apply tryWithTimeout_all_fail.
  - destruct N as [|N]; [destruct Hv; lia|].
    destruct (tryWithTimeout_decrement_before_check r N fails w Hv HN Hf)
      as (w' & Ht & _).
    exists (rounds N ++ decrementFirst), w'.
    now rewrite Try_bounded by assumption.
  - destruct (tryWithTimeout_check_before_decrement r N fails w Hv HN Hf)
      as (s & _ & _ & _ & _ & Ht).
    exists (rounds N ++ thenDeadline), (world s).
    now rewrite Try_bounded by assumption.
Qed.

(** The test "fail before timeout" with two attempts. *)
Lemma X9_witness :
  let r := MaxDelay (bound (P := simplePlatform)
                       (MaxAttemptTimes New 2) alwaysFails) 60000000000 in
  let fails := fun _ : nat => Errorf "dllm" in
  (Validated r /\ errors r = [] /\ 0 < maxDelay r
   /\ maxAttemptTimes r = Z.of_nat 2
   /\ (forall k, invoke r k = Return (Some (fails k))))
  /\ (forall sched o w',
        Try (P := simplePlatform) r sched world0 = Some (o, w') ->
        o = Return (Some (Plain ErrTimeout))
        \/ o = Return (Some (Multi (map fails (seq (calls world0) 2))))).
Proof.
  intros r fails.
  assert (Hv : Validated r)
    by (constructor; cbn; unfold defaultStackSize; lia).
  assert (Hf : forall k, invoke r k = Return (Some (fails k)))
    by (intros k; reflexivity).
  split; [split; [exact Hv|repeat split; exact Hf]|].
  exact (proj1 (X9_bounded_all_fail_outcomes (P := simplePlatform)
                  r 2 fails world0 Hv eq_refl eq_refl eq_refl Hf)).
Defined.

(** ** Bounded-time runs of an operation that succeeds *)

Section UntilSuccess.

Context {P : Platform}.

Variable r : Retryable.
Variable res : nat -> option err.
Variables c0 N m : nat.

Hypothesis r_validated : Validated r.
Hypothesis r_results : forall k, invoke r k = Return (res k).
Hypothesis m_allowed : (m < N)%nat.
Hypothesis m_succeeds : res (c0 + m)%nat = None.

Ltac producer_cases Hp :=
  destruct (producer _); cbv iota in Hp |- *;
  repeat match goal with H : _ /\ _ |- _ => destruct H end;
  try contradiction.

Lemma untilSuccess_produce (s s' : Race) :
  untilSuccess res c0 N m s -> produce r s = Some s' ->
  untilSuccess res c0 N m s'.
Proof.
  intros (d & Hd & Hc & Hp). unfold produce.
  destruct (producer s) eqn:Ep; try discriminate.
  - destruct Hp as [Hw Hr]. intros H. injection H as <-.
    exists d. cbn [setProducer count producer world].
    split; [assumption|]. split; [assumption|].
    destruct (count s >? 0); split; assumption.
  - destruct Hp as [Hw Hr]. rewrite callF_invoke, r_results.
    intros H. injection H as <-.
    exists d. cbn [setProducer count producer world calls].
    split; [assumption|]. split; [assumption|].
    split; [lia|]. split; [|exact Hr]. intros _. now rewrite Hw.
  - destruct Hp as (Hlt & Hw & Hr).
    destruct (wait_returns r (world s) r_validated) as (w' & Hwt & Hcw & _).
    rewrite Hwt. intros H. injection H as <-.
    exists d. cbn [setProducer count producer world].
    split; [assumption|]. split; [assumption|].
    split; [assumption|]. split; [now rewrite Hcw|exact Hr].
  - destruct Hp as (Hlt & Hw & Hr). intros H. injection H as <-.
    exists (S d). cbn [count producer world].
    split; [lia|]. split; [lia|]. split; [exact Hw|exact Hr].
Qed.

Lemma untilSuccess_deliver (s s' : Race) :
  untilSuccess res c0 N m s -> deliver s = Some s' ->
  untilSuccess res c0 N m s'.
Proof.
  intros (d & Hd & Hc & Hp). unfold deliver.
  destruct (producer s) eqn:Ep; try discriminate.
  destruct (coordinator s) eqn:Ec; try discriminate.
  destruct Hp as (Hw & He & Hr). unfold handed in Hr. rewrite Ec in Hr.
  intros H. injection H as <-.
  exists d. cbn [count producer world].
  split; [assumption|]. split; [assumption|].
  split; [assumption|]. split; [assumption|].
  unfold handed. cbn [coordinator]. exists d.
  split; [reflexivity|]. split; [assumption|]. now apply He.
Qed.

Lemma untilSuccess_coordinate (s s' : Race) :
  untilSuccess res c0 N m s -> coordinate s = Some s' ->
  untilSuccess res c0 N m s'.
Proof.
  intros (d & Hd & Hc & Hp). unfold coordinate.
  destruct (coordinator s) eqn:Ec; try discriminate.
  - (* append and the nil test *)
    assert (Hk : forall j l, handed res c0 m j s ->
              handed res c0 m j
                (match e with
                 | None => setCoordinator s (CReturned None) l
                 | Some _ => setCoordinator s CCheck l
                 end)).
    { intros j l Hr. unfold handed in Hr. rewrite Ec in Hr.
      destruct Hr as (j' & -> & Hj & ->).
      destruct (res (c0 + j')%nat) eqn:E; unfold handed;
        cbn [setCoordinator coordinator]; [|now left].
      assert (j' <> m) by (intros ->; congruence). lia. }
    intros H.
    assert (Hs' : s' = match e with
                       | None => setCoordinator s (CReturned None)
                                   (Append (errs s) [e])
                       | Some _ => setCoordinator s CCheck
                                     (Append (errs s) [e])
                       end).
    { destruct e; now injection H as <-. }
    clear H. subst s'. exists d.
    split; [assumption|].
    split; [now destruct e|].
    assert (Hprod : forall c l, producer (setCoordinator s c l) = producer s)
      by reflexivity.
    assert (Hwld : forall c l, world (setCoordinator s c l) = world s)
      by reflexivity.
    replace (producer (match e with
                       | None => setCoordinator s (CReturned None)
                                   (Append (errs s) [e])
                       | Some _ => setCoordinator s CCheck
                                     (Append (errs s) [e])
                       end)) with (producer s) by now destruct e.
    replace (world (match e with
                    | None => setCoordinator s (CReturned None)
                                (Append (errs s) [e])
                    | Some _ => setCoordinator s CCheck
                                  (Append (errs s) [e])
                    end)) with (world s) by now destruct e.
    producer_cases Hp; repeat split; try assumption; now apply Hk.
  - (* the test of count: more attempts are always allowed *)
    assert (Hpos : (count s <=? 0) = false).
    { apply Z.leb_gt.
      assert (d <= m)%nat; [|lia].
      revert Hp. unfold handed. rewrite Ec.
      destruct (producer s); intros Hp;
        repeat match goal with H : _ /\ _ |- _ => destruct H end;
        try contradiction; lia. }
    rewrite Hpos. intros H. injection H as <-.
    exists d. cbn [setCoordinator count producer world].
    split; [assumption|]. split; [assumption|].
    assert (Hsel : forall j, handed res c0 m j s ->
              handed res c0 m j (setCoordinator s CSelect (errs s))).
    { intros j Hr. unfold handed in Hr |- *. rewrite Ec in Hr. exact Hr. }
    producer_cases Hp; repeat split; try assumption; now apply Hsel.
Qed.

Lemma untilSuccess_step (ev : Event) (s s' : Race) :
  untilSuccess res c0 N m s -> step r ev s = Some s' ->
  untilSuccess res c0 N m s'.
Proof.
  destruct ev; cbn [step].
  - apply untilSuccess_produce.
  - apply untilSuccess_deliver.
  - apply untilSuccess_coordinate.
  - unfold timerFires. destruct (fired s); [discriminate|].
    intros H E. injection E as <-. exact H.
  - intros (d & Hd & Hc & Hp). unfold selectTimer.
    destruct (coordinator s) eqn:Ec; try discriminate.
    destruct (fired s); [|discriminate].
    intros H. injection H as <-.
    exists d. cbn [setCoordinator count producer world].
    split; [assumption|]. split; [assumption|].
    assert (Hr : forall j,
              handed res c0 m j
                (setCoordinator s (CReturned (Some (Plain ErrTimeout)))
                   (errs s))).
    { intros j. unfold handed. cbn [setCoordinator coordinator]. now right. }
    producer_cases Hp; repeat split; try assumption; apply Hr.
Qed.

Lemma untilSuccess_finished (s : Race) (o : outcome (option error)) :
  untilSuccess res c0 N m s -> finished s = Some o ->
  (o = Return None \/ o = Return (Some (Plain ErrTimeout)))
  /\ (calls (world s) <= c0 + m + 2)%nat.
Proof.
  intros (d & Hd & Hc & Hp). unfold finished.
  destruct (coordinator s) eqn:Ec.
  1-3: destruct (producer s); try discriminate; contradiction.
  intros H. injection H as <-.
  assert (Hr : forall j, handed res c0 m j s ->
            Return res0 = Return None
            \/ Return res0 = Return (Some (Plain ErrTimeout))).
  { intros j Hr. unfold handed in Hr. rewrite Ec in Hr.
    destruct Hr as [-> | ->]; [now left|now right]. }
  destruct (producer s); cbv iota in Hp;
    repeat match goal with H : _ /\ _ |- _ => destruct H end;
    try contradiction; (split; [eapply Hr; eassumption|lia]).
Qed.

Lemma untilSuccess_run (sched : list Event) (s : Race)
  (o : outcome (option error)) (w' : World) :
  untilSuccess res c0 N m s -> run r sched s = Some (o, w') ->
  (o = Return None \/ o = Return (Some (Plain ErrTimeout)))
  /\ (calls w' <= c0 + m + 2)%nat.
Proof.
  revert s. induction sched as [|ev sched IH]; intros s Hs; cbn [run].
  - destruct (finished s) as [o'|] eqn:Ef; [|discriminate].
    intros H. injection H as <- <-. eapply untilSuccess_finished; eassumption.
  - destruct (finished s) as [o'|] eqn:Ef.
    + intros H. injection H as <- <-.
      eapply untilSuccess_finished; eassumption.
    + destruct (step r ev s) as [s1|] eqn:Es; [|discriminate].
      apply IH. eapply untilSuccess_step; eassumption.
Qed.

End UntilSuccess.

(** X10. In bounded-time mode, on a validated configuration with no
    recorded error, if one of the allowed attempts (the one numbered
    [m + 1 <= maxAttemptTimes]) returns nil, then no run returns a failure
    report: every run that returns gives nil or [ErrTimeout].  When [Try]
    returns, the operation has been invoked at most [m + 2] times: at most
    once more after the successful attempt. *)
Theorem X10_bounded_success_outcomes {P : Platform}
  (r : Retryable) (N m : nat) (res : nat -> option err)
  (sched : list Event) (w w' : World) (o : outcome (option error)) :
  Validated r ->
  errors r = [] ->
  0 < maxDelay r ->
  maxAttemptTimes r = Z.of_nat N ->
  (forall k, invoke r k = Return (res k)) ->
  (m < N)%nat ->
  res (calls w + m)%nat = None ->
  Try r sched w = Some (o, w') ->
  (o = Return None \/ o = Return (Some (Plain ErrTimeout)))
  /\ (calls w' <= calls w + m + 2)%nat.
Proof.
  intros Hv He Hd HN Hres Hm Hok.
  rewrite Try_bounded by assumption. unfold tryWithTimeout.
  apply (untilSuccess_run r res (calls w) N m Hv Hres Hm Hok).
  exists 0%nat. unfold start. cbn [count producer world].
  split; [lia|]. split; [rewrite HN; lia|].
  split; [lia|]. unfold handed. cbn [coordinator]. lia.
Qed.

(** The test "succeed before timeout" with the operation of "succeed after
    two errors": the deadline elapses during the second wait. *)
Lemma X10_witness :
  let r := MaxDelay (bound (P := simplePlatform)
                       (MaxAttemptTimes New 5) failsTwice) 60000000000 in
  let res := fun k : nat =>
               if (k =? 2)%nat then None else Some (Errorf "") in
  let sched := rounds 2 ++ [TimerFires; SelectTimer] in
  (Validated r /\ errors r = [] /\ 0 < maxDelay r
   /\ maxAttemptTimes r = Z.of_nat 5
   /\ (forall k, invoke r k = Return (res k))
   /\ (2 < 5)%nat /\ res (calls world0 + 2)%nat = None
   /\ Try (P := simplePlatform) r sched world0
      = Some (Return (Some (Plain ErrTimeout)),
              {| calls := 2; sleeps := [0; 0]; draws := 0 |}))
  /\ (2 <= calls world0 + 2 + 2)%nat.
Proof.
  intros r res sched.
  assert (Hv : Validated r)
    by (constructor; cbn; unfold defaultStackSize; lia).
  assert (Hres : forall k, invoke r k = Return (res k)).
  { intros k. destruct k as [|[|[|k]]]; reflexivity. }
  assert (Hm : (2 < 5)%nat) by lia.
  assert (Ht : Try (P := simplePlatform) r sched world0
               = Some (Return (Some (Plain ErrTimeout)),
                       {| calls := 2; sleeps := [0; 0]; draws := 0 |}))
    by reflexivity.
  split.
  - split; [exact Hv|]. split; [reflexivity|]. split; [reflexivity|].
    split; [reflexivity|]. split; [exact Hres|]. split; [exact Hm|].
    split; [reflexivity|exact Ht].
  - exact (proj2 (X10_bounded_success_outcomes (P := simplePlatform)
                    r 5 2 res sched world0
                    {| calls := 2; sleeps := [0; 0]; draws := 0 |}
                    (Return (Some (Plain ErrTimeout)))
                    Hv eq_refl eq_refl eq_refl Hres Hm eq_refl Ht)).
Defined.

Section Overrun.

Context {P : Platform}.

Lemma exec_rounds_prefix (r : Retryable) :
  Validated r ->
  forall (n : nat) (c : Z) (l : list err) (b : bool) (w : World),
  0 <= c ->
  (forall i, (i < n)%nat ->
             exists e, invoke r (calls w + i)%nat = Return (Some e)) ->
  exists l' w',
    exec r (rounds n)
      {| count := Z.of_nat n + c; producer := PLoop; coordinator := CSelect;
         errs := l; fired := b; world := w |}
    = Some {| count := c; producer := PLoop; coordinator := CSelect;
              errs := l'; fired := b; world := w' |}
    /\ calls w' = (calls w + n)%nat.
Proof.
  intros Hv. induction n as [|n IH]; intros c l b w Hc Hf.
  - exists l, w. cbn [rounds exec Z.of_nat].
    replace (0 + c) with c by lia. split; [reflexivity|lia].
  - destruct (Hf 0%nat ltac:(lia)) as [e He]. rewrite Nat.add_0_r in He.
    destruct (exec_checkFirst r (Z.of_nat (S n) + c) l b w e
                Hv ltac:(lia) He) as (w1 & H1 & Hc1 & _).
    destruct (IH c (l ++ [e]) b w1 Hc) as (l' & w2 & H2 & Hc2).
    { intros i Hi. rewrite Hc1.
      destruct (Hf (S i) ltac:(lia)) as [e' He'].
      exists e'. rewrite <- He'. f_equal. lia. }
    exists l', w2. cbn [rounds]. rewrite (exec_app _ _ _ _ _ H1).
    replace (Z.of_nat (S n) + c - 1) with (Z.of_nat n + c) by lia.
    split; [exact H2|lia].
Qed.

End Overrun.

(** X11. In bounded-time mode a success does not stop the producer at
    once.  If the attempts before the one numbered [m + 1] fail, that one
    returns nil and one more attempt is allowed ([m + 2 <=
    maxAttemptTimes]), there is a run in which [Try] returns nil after the
    operation has been invoked [m + 2] times: the producer has waited,
    decremented [count] and invoked the operation again before the
    coordinator looked at the nil it had received. *)
Theorem X11_bounded_success_overrun {P : Platform}
  (r : Retryable) (N m : nat) (res : nat -> option err) (w : World) :
  Validated r ->
  errors r = [] ->
  0 < maxDelay r ->
  maxAttemptTimes r = Z.of_nat N ->
  (forall k, invoke r k = Return (res k)) ->
  (m + 2 <= N)%nat ->
  (forall i, (i < m)%nat -> res (calls w + i)%nat <> None) ->
  res (calls w + m)%nat = None ->
  exists sched w',
    Try r sched w = Some (Return None, w')
    /\ calls w' = (calls w + m + 2)%nat.
Proof.
  intros Hv He Hd HN Hres Hm Hfail Hok.
  destruct (exec_rounds_prefix r Hv m (Z.of_nat (N - m)) [] false w
              ltac:(lia)) as (l' & w1 & Hx & Hc1).
  { intros i Hi. rewrite Hres.
    destruct (res (calls w + i)%nat) as [e|] eqn:E.
    - now exists e.
    - now destruct (Hfail i Hi). }
  replace (Z.of_nat m + Z.of_nat (N - m)) with (Z.of_nat N) in Hx by lia.
  set (w2 := {| calls := S (calls w1); sleeps := sleeps w1;
                draws := draws w1 |}).
  destruct (wait_returns r w2 Hv) as (w3 & Hw & Hc3 & _).
  exists (rounds m ++ [Produce; Produce; Deliver; Produce; Produce;
                       Produce; Produce; Coordinate]).
  eexists.
  rewrite Try_bounded by assumption. unfold tryWithTimeout, start.
  rewrite HN, (run_exec _ _ _ _ _ Hx).
  assert (Hgt : (Z.of_nat (N - m) >? 0) = true) by (apply Z.gtb_lt; lia).
  assert (Hgt' : (Z.of_nat (N - m) - 1 >? 0) = true)
    by (apply Z.gtb_lt; lia).
  assert (Hok1 : res (calls w1) = None) by (rewrite Hc1; exact Hok).
  race_simpl. rewrite Hgt.
  race_simpl. rewrite callF_invoke, Hres, Hok1.
  race_simpl. fold w2. rewrite Hw.
  race_simpl. rewrite Hgt'.
  race_simpl. rewrite callF_invoke, Hres.
  race_simpl. split; [reflexivity|].
  cbn [calls]. rewrite Hc3. cbn [calls w2]. lia.
Qed.

(** Nil at the first attempt of two: the operation has run twice. *)
Lemma X11_witness :
  let r := MaxDelay (bound (P := simplePlatform) (MaxAttemptTimes New 2)
                       (IValue funcNoOutput (fun _ => Return [])))
             60000000000 in
  let res := fun _ : nat => @None err in
  (Validated r /\ errors r = [] /\ 0 < maxDelay r
   /\ maxAttemptTimes r = Z.of_nat 2
   /\ (forall k, invoke r k = Return (res k))
   /\ (0 + 2 <= 2)%nat
   /\ (forall i, (i < 0)%nat -> res (calls world0 + i)%nat <> None)
   /\ res (calls world0 + 0)%nat = None)
  /\ exists sched w',
       Try (P := simplePlatform) r sched world0 = Some (Return None, w')
       /\ calls w' = (calls world0 + 0 + 2)%nat.
Proof.
  intros r res.
  assert (Hv : Validated r)
    by (constructor; cbn; unfold defaultStackSize; lia).
  assert (Hres : forall k, invoke r k = Return (res k))
    by (intros k; reflexivity).
  assert (Hnone : forall i, (i < 0)%nat -> res (calls world0 + i)%nat <> None)
    by (intros i Hi; lia).
  split.
  - split; [exact Hv|]. split; [reflexivity|]. split; [reflexivity|].
    split; [reflexivity|]. split; [exact Hres|]. split; [lia|].
    split; [exact Hnone|reflexivity].
  - exact (X11_bounded_success_overrun (P := simplePlatform)
             r 2 0 res world0 Hv eq_refl eq_refl eq_refl Hres
             ltac:(lia) Hnone eq_refl).
Defined.

(** ** The budget of invocations *)

Section Budget.

Context {P : Platform}.

(** [wait] does not touch the operation, whether it returns or panics. *)
Lemma wait_calls (r : Retryable) (w : World) :
  calls (snd (wait r w)) = calls w.
Proof.
  unfold wait.
  destruct ((waitFixed r <=? 0) && (waitRandomMax r >? waitRandomMin r));
    [|reflexivity].
  unfold bind, randInt63n.
  destruct (wrap64 (waitRandomMax r - waitRandomMin r) <=? 0); reflexivity.
Qed.

Lemma tryLoop_calls (r : Retryable) (n : nat) (l : list err) (w w' : World)
  (o : outcome (option error)) :
  tryLoop r n l w = (o, w') ->
  (calls w <= calls w' <= calls w + n)%nat.
Proof.
  revert l w. induction n as [|n IH]; intros l w; cbn [tryLoop].
  - unfold ret. intros H. injection H as _ <-. lia.
  - unfold bind at 1. rewrite callF_invoke.
    destruct (invoke r (calls w)) as [[e|]|p].
    + set (w1 := {| calls := S (calls w); sleeps := sleeps w;
                    draws := draws w |}).
      unfold bind. pose proof (wait_calls r w1) as Hw.
      destruct (wait r w1) as [[[]|p] w2]; cbn [snd] in Hw.
      * intros H. apply IH in H. rewrite Hw in H. cbn [calls w1] in H. lia.
      * intros H. injection H as _ <-. rewrite Hw. cbn [calls w1]. lia.
    + unfold ret. intros H. injection H as _ <-. cbn [calls]. lia.
    + intros H. injection H as _ <-. cbn [calls]. lia.
Qed.

Lemma budget_step (r : Retryable) (c0 : nat) (B : Z) (ev : Event)
  (s s' : Race) :
  budget c0 B s -> step r ev s = Some s' -> budget c0 B s'.
Proof.
  intros (Hlo & Hp). destruct ev; cbn [step].
  - unfold produce. destruct (producer s) eqn:Ep; try discriminate;
      intros H.
    + injection H as <-. unfold budget.
      cbn [setProducer count producer world]. split; [exact Hlo|].
      destruct (count s >? 0) eqn:E.
      * apply Z.gtb_lt in E. lia.
      * exact Hp.
    + rewrite callF_invoke in H.
      destruct (invoke r (calls (world s))) as [e|p]; injection H as <-;
        unfold budget; cbn [setProducer count producer world calls];
        (split; [lia|]); lia.
    + pose proof (wait_calls r (world s)) as Hw.
      destruct (wait r (world s)) as [[[]|p] w2]; cbn [snd] in Hw;
        injection H as <-; unfold budget;
        cbn [setProducer count producer world]; rewrite Hw;
        (split; [exact Hlo|]); lia.
    + injection H as <-. unfold budget. cbn [count producer world].
      split; [exact Hlo|]. lia.
  - unfold deliver. destruct (producer s) eqn:Ep; try discriminate.
    destruct (coordinator s); try discriminate.
    intros H. injection H as <-. unfold budget.
    cbn [count producer world]. split; [exact Hlo|exact Hp].
  - unfold coordinate. destruct (coordinator s) as [|e| |]; try discriminate.
    + destruct e; intros H; injection H as <-; unfold budget;
        cbn [setCoordinator count producer world];
        (split; [exact Hlo|exact Hp]).
    + destruct (count s <=? 0); intros H; injection H as <-; unfold budget;
        cbn [setCoordinator count producer world];
        (split; [exact Hlo|exact Hp]).
  - unfold timerFires. destruct (fired s); [discriminate|].
    intros H. injection H as <-. unfold budget.
    cbn [count producer world]. split; [exact Hlo|exact Hp].
  - unfold selectTimer. destruct (coordinator s); try discriminate.
    destruct (fired s); [|discriminate].
    intros H. injection H as <-. unfold budget.
    cbn [setCoordinator count producer world]. split; [exact Hlo|exact Hp].
Qed.

Lemma budget_calls (c0 : nat) (B : Z) (s : Race) :
  budget c0 B s ->
  (c0 <= calls (world s))%nat /\ Z.of_nat (calls (world s)) <= B.
Proof.
  intros (Hlo & Hp). split; [exact Hlo|].
  destruct (producer s); lia.
Qed.

Lemma budget_run (r : Retryable) (c0 : nat) (B : Z) (sched : list Event)
  (s : Race) (o : outcome (option error)) (w' : World) :
  budget c0 B s -> run r sched s = Some (o, w') ->
  (c0 <= calls w')%nat /\ Z.of_nat (calls w') <= B.
Proof.
  revert s. induction sched as [|ev sched IH]; intros s Hs; cbn [run].
  - destruct (finished s); [|discriminate].
    intros H. injection H as _ <-. now apply budget_calls.
  - destruct (finished s).
    + intros H. injection H as _ <-. now apply budget_calls.
    + destruct (step r ev s) as [s1|] eqn:Es; [|discriminate].
      apply IH. eapply budget_step; eassumption.
Qed.

End Budget.

(** X12. [Try] never invokes the operation more than [maxAttemptTimes]
    times: for every configuration, in either mode and for every schedule,
    when [Try] gives its caller a result (a value or a panic) the number of
    invocations made since the call is at most [maxAttemptTimes], and zero
    when [maxAttemptTimes] is not positive. *)
Theorem X12_invocations_within_budget {P : Platform}
  (r : Retryable) (sched : list Event) (w w' : World)
  (o : outcome (option error)) :
  Try r sched w = Some (o, w') ->
  (calls w <= calls w')%nat
  /\ Z.of_nat (calls w') <= Z.of_nat (calls w) + Z.max 0 (maxAttemptTimes r).
Proof.
  unfold Try.
  destruct (ErrorOrNil (Append [] (map Some (errors r)))) as [e|].
  - intros H. injection H as _ <-. lia.
  - destruct (maxDelay r >? 0).
    + unfold tryWithTimeout. apply budget_run.
      unfold budget, start. cbn [count producer world]. lia.
    + intros H. injection H as H. unfold tryWithoutTimeout in H.
      apply tryLoop_calls in H. lia.
Qed.

(** Five attempts allowed, nil at the third. *)
Lemma X12_witness :
  let r := bound (P := simplePlatform) (MaxAttemptTimes New 5) failsTwice in
  let w' := {| calls := 3; sleeps := [0; 0]; draws := 0 |} in
  Try (P := simplePlatform) r [] world0 = Some (Return None, w')
  /\ (calls world0 <= calls w')%nat
  /\ Z.of_nat (calls w')
     <= Z.of_nat (calls world0) + Z.max 0 (maxAttemptTimes r).
Proof.
  intros r w'.
  assert (Ht : Try (P := simplePlatform) r [] world0 = Some (Return None, w'))
    by reflexivity.
  split; [exact Ht|].
  exact (X12_invocations_within_budget (P := simplePlatform)
           r [] world0 w' (Return None) Ht).
Defined.

(** ** The bound operation *)


